(** * CSV / JSON converter: the conversion core of [src/components/Converter.tsx]

    The component keeps four pieces of React state (input, output, error,
    mode) and converts between CSV text and JSON text with three local
    functions: [parseCSV], [parseJSON] and [convertData].  This file embeds
    them, together with the part of the JavaScript run time they rely on
    (string methods, property order of ordinary objects, [String(...)],
    [JSON.stringify]), and proves properties of the embedding. *)

From Stdlib Require Import Ascii String.
From Stdlib Require Import List NArith ZArith Bool Lia Arith.
Import ListNotations.
Local Open Scope list_scope.

(** ** JavaScript strings *)

Module JS.

(** A JavaScript string is a sequence of UTF-16 code units. *)
Definition code_unit := N.
Definition jsstring := list code_unit.

(** String literals of the source, written as Rocq strings. *)
Definition js (s : string) : jsstring :=
  map N_of_ascii (list_ascii_of_string s).

Definition TAB : code_unit := 9%N.
Definition LF : code_unit := 10%N.
Definition CR : code_unit := 13%N.
Definition SPACE : code_unit := 32%N.
Definition DQUOTE : code_unit := 34%N.
Definition COMMA : code_unit := 44%N.
Definition BACKSLASH : code_unit := 92%N.

Fixpoint str_eqb (a b : jsstring) : bool :=
  match a, b with
  | [], [] => true
  | x :: a', y :: b' => N.eqb x y && str_eqb a' b'
  | _, _ => false
  end.

(** [!s] for a string [s]: only the empty string is falsy. *)
Definition is_empty (s : jsstring) : bool :=
  match s with [] => true | _ :: _ => false end.

(** The code units [String.prototype.trim] strips: WhiteSpace and
    LineTerminator of ECMAScript (TAB, VT, FF, SP, NBSP, ZWNBSP, the
    Unicode space separators, LF, CR, LS, PS). *)
Definition is_white_space (c : code_unit) : bool :=
  (c =? 9)%N || (c =? 10)%N || (c =? 11)%N || (c =? 12)%N || (c =? 13)%N
  || (c =? 32)%N || (c =? 160)%N || (c =? 5760)%N
  || ((8192 <=? c)%N && (c <=? 8202)%N)
  || (c =? 8232)%N || (c =? 8233)%N || (c =? 8239)%N || (c =? 8287)%N
  || (c =? 12288)%N || (c =? 65279)%N.

Fixpoint trimStart (s : jsstring) : jsstring :=
  match s with
  | [] => []
  | c :: r => if is_white_space c then trimStart r else s
  end.

Definition trimEnd (s : jsstring) : jsstring := rev (trimStart (rev s)).

(** [s.trim()] *)
Definition trim (s : jsstring) : jsstring := trimEnd (trimStart s).

(** [s.split(sep)] for a one-unit separator: the first piece and the
    remaining pieces.  The result of [split] is never empty. *)
Fixpoint split_pieces (sep : code_unit) (s : jsstring) : jsstring * list jsstring :=
  match s with
  | [] => ([], [])
  | c :: r =>
      let (f, fs) := split_pieces sep r in
      if (c =? sep)%N then ([], f :: fs) else (c :: f, fs)
  end.

Definition split (sep : code_unit) (s : jsstring) : list jsstring :=
  let (f, fs) := split_pieces sep s in f :: fs.

Definition head_is (c : code_unit) (s : jsstring) : bool :=
  match s with
  | [] => false
  | d :: _ => (d =? c)%N
  end.

(** [s.split(/\r\n|\n/)]: scanning from the left, a CR directly followed
    by LF is one separator, and so is any other LF. *)
Fixpoint line_pieces (s : jsstring) : jsstring * list jsstring :=
  match s with
  | [] => ([], [])
  | c :: r =>
      let (f, fs) := line_pieces r in
      if (c =? LF)%N then ([], f :: fs)
      else if (c =? CR)%N && head_is LF r then (f, fs)
      else (c :: f, fs)
  end.

Definition split_lines (s : jsstring) : list jsstring :=
  let (f, fs) := line_pieces s in f :: fs.

(** [a.join(sep)] on an array of strings. *)
Fixpoint join (sep : jsstring) (l : list jsstring) : jsstring :=
  match l with
  | [] => []
  | x :: r =>
      match r with
      | [] => x
      | _ :: _ => x ++ sep ++ join sep r
      end
  end.

Fixpoint starts_with (p s : jsstring) : bool :=
  match p, s with
  | [], _ => true
  | _ :: _, [] => false
  | a :: p', b :: s' => N.eqb a b && starts_with p' s'
  end.

(** [s.includes(needle)] *)
Fixpoint includes (needle s : jsstring) : bool :=
  starts_with needle s
  || match s with
     | [] => false
     | _ :: r => includes needle r
     end.

(** [s.replace] with the global pattern for a double quote and a
    replacement of two double quotes: every occurrence is doubled. *)
Definition double_quotes (s : jsstring) : jsstring :=
  flat_map (fun c => if (c =? DQUOTE)%N then [DQUOTE; DQUOTE] else [c]) s.

(** Decimal rendering of a non-negative integer, as a template literal
    or [String(n)] prints an array index or a length. *)
Fixpoint uint_units (d : Decimal.uint) : jsstring :=
  match d with
  | Decimal.Nil => []
  | Decimal.D0 d => 48%N :: uint_units d
  | Decimal.D1 d => 49%N :: uint_units d
  | Decimal.D2 d => 50%N :: uint_units d
  | Decimal.D3 d => 51%N :: uint_units d
  | Decimal.D4 d => 52%N :: uint_units d
  | Decimal.D5 d => 53%N :: uint_units d
  | Decimal.D6 d => 54%N :: uint_units d
  | Decimal.D7 d => 55%N :: uint_units d
  | Decimal.D8 d => 56%N :: uint_units d
  | Decimal.D9 d => 57%N :: uint_units d
  end.

Definition decimal (n : nat) : jsstring := uint_units (Nat.to_uint n).

(** ** Ordinary objects

    The own enumerable string-keyed properties of an ordinary object, in
    the order [Object.keys], [JSON.stringify] and [for-in] visit them:
    array-index keys first, in ascending numeric order, then the other
    keys in the order they were created. *)

Definition object (A : Type) := list (jsstring * A).

Definition is_digit (c : code_unit) : bool := (48 <=? c)%N && (c <=? 57)%N.

Definition index_value (k : jsstring) : N :=
  fold_left (fun acc c => (acc * 10 + (c - 48))%N) k 0%N.

(** [k] is an array index: the canonical decimal numeral of an integer
    between 0 and 2^32 - 2. *)
Definition is_array_index (k : jsstring) : bool :=
  match k with
  | [] => false
  | c :: r =>
      forallb is_digit k
      && (is_empty r || negb (c =? 48)%N)
      && (length k <=? 10)
      && (index_value k <? 4294967295)%N
  end.

Definition keys {A} (o : object A) : list jsstring := map fst o.

Fixpoint own {A} (o : object A) (k : jsstring) : option A :=
  match o with
  | [] => None
  | (k', v) :: r => if str_eqb k' k then Some v else own r k
  end.

Definition has_own {A} (o : object A) (k : jsstring) : bool :=
  match own o k with Some _ => true | None => false end.

Fixpoint overwrite {A} (o : object A) (k : jsstring) (v : A) : object A :=
  match o with
  | [] => []
  | (k', v') :: r =>
      if str_eqb k' k then (k', v) :: r else (k', v') :: overwrite r k v
  end.

(** A new array-index key goes after the smaller array-index keys. *)
Fixpoint insert_index {A} (o : object A) (k : jsstring) (v : A) : object A :=
  match o with
  | [] => [(k, v)]
  | (k', v') :: r =>
      if is_array_index k' && (index_value k' <? index_value k)%N
      then (k', v') :: insert_index r k v
      else (k, v) :: o
  end.

(** CreateDataProperty on an ordinary object: an existing key keeps its
    place, a new one takes the next place of its kind. *)
Definition define {A} (o : object A) (k : jsstring) (v : A) : object A :=
  if has_own o k then overwrite o k v
  else if is_array_index k then insert_index o k v
  else o ++ [(k, v)].

(** [o[k] = v] on an object that inherits from [Object.prototype], for a
    primitive [v]: the key [__proto__] reaches the inherited setter, which
    ignores a value that is neither an object nor null; every other key
    creates or updates an own property. *)
Definition assign {A} (o : object A) (k : jsstring) (v : A) : object A :=
  if str_eqb k (js "__proto__") then o else define o k v.

(** ** Exceptions *)

(** A call either returns or throws an [Error] with a message. *)
Inductive result (A : Type) : Type :=
| Ok (a : A)
| Throw (msg : jsstring).
Arguments Ok {A} a.
Arguments Throw {A} msg.

Definition bind {A B} (r : result A) (k : A -> result B) : result B :=
  match r with
  | Ok a => k a
  | Throw msg => Throw msg
  end.

Notation "x <- r ;; k" := (bind r (fun x => k))
  (at level 61, r at next level, right associativity).

(** ** JSON values *)

Section Values.

(** The Number type.  Its values and their [String(...)] rendering are
    those of IEEE 754 doubles; both are kept abstract. *)
Variable number : Type.
Variable Number_toString : number -> jsstring.

(** What [JSON.parse] can return. *)
#[warnings="-register-all"]
Inductive value : Type :=
| VNull
| VBool (b : bool)
| VNum (n : number)
| VStr (s : jsstring)
| VArr (elems : list value)
| VObj (props : list (jsstring * value)).

(** [typeof v] *)
Definition typeof (v : value) : jsstring :=
  match v with
  | VNull => js "object"
  | VBool _ => js "boolean"
  | VNum _ => js "number"
  | VStr _ => js "string"
  | VArr _ => js "object"
  | VObj _ => js "object"
  end.

(** [Array.isArray(v)] *)
Definition isArray (v : value) : bool :=
  match v with
  | VArr _ => true
  | _ => false
  end.

(** [String(v)].  An array joins the renderings of its elements with a
    comma, null rendering as the empty string.  An object is rendered by
    the inherited [toString] as [[object Object]], unless an own property
    named [toString] hides it: a property read from JSON is not callable,
    [valueOf] returns the object itself, and the conversion throws a
    TypeError. *)
Fixpoint ToString (v : value) : result jsstring :=
  match v with
  | VNull => Ok (js "null")
  | VBool b => Ok (if b then js "true" else js "false")
  | VNum n => Ok (Number_toString n)
  | VStr s => Ok s
  | VArr elems =>
      (fix join_elems (l : list value) : result jsstring :=
         match l with
         | [] => Ok []
         | x :: r =>
             let sx := match x with
                       | VNull => Ok []
                       | _ => ToString x
                       end in
             match r with
             | [] => sx
             | _ :: _ =>
                 s <- sx ;; t <- join_elems r ;; Ok (s ++ [COMMA] ++ t)
             end
         end) elems
  | VObj props =>
      if has_own props (js "toString")
      then Throw (js "Cannot convert object to primitive value")
      else Ok (js "[object Object]")
  end.

(** What a property read [obj[key]] can produce: [undefined], a value of
    the JSON text, or something that is neither null nor undefined and
    does not come from the text (an inherited built-in, the length of an
    array); the last is carried by its [String(...)] rendering. *)
Inductive jsval : Type :=
| Undefined
| Json (v : value)
| Other (rendering : jsstring).

(** [String(f)] for a built-in function named [name]. *)
Definition native (name : jsstring) : jsstring :=
  js "function " ++ name ++ js "() { [native code] }".

(** The function-valued properties of [Object.prototype] other than
    [constructor]. *)
Definition Object_prototype_functions : list jsstring :=
  map js ["__defineGetter__"; "__defineSetter__"; "hasOwnProperty";
          "__lookupGetter__"; "__lookupSetter__"; "isPrototypeOf";
          "propertyIsEnumerable"; "toString"; "valueOf";
          "toLocaleString"]%string.

(** A property read that reaches [Object.prototype].  [proto] is the
    rendering of the prototype of the object the read started from, which
    the [__proto__] accessor returns. *)
Definition Object_prototype_get (proto : jsstring) (k : jsstring) : jsval :=
  if str_eqb k (js "__proto__") then Other proto
  else if str_eqb k (js "constructor") then Other (native (js "Object"))
  else if existsb (str_eqb k) Object_prototype_functions then Other (native k)
  else Undefined.

(** The properties of [Array.prototype] with their renderings; the table
    differs between ECMAScript editions and is a parameter. *)
Variable Array_prototype : list (jsstring * jsstring).

(** [obj[key]] for an element of the parsed array: own properties first,
    then the prototype chain. *)
Definition Get (obj : value) (k : jsstring) : jsval :=
  match obj with
  | VObj props =>
      match own props k with
      | Some v => Json v
      | None => Object_prototype_get (js "[object Object]") k
      end
  | VArr elems =>
      let at_index :=
        if is_array_index k
        then nth_error elems (N.to_nat (index_value k))
        else None in
      match at_index with
      | Some v => Json v
      | None =>
          if str_eqb k (js "length") then Other (decimal (length elems))
          else match own Array_prototype k with
               | Some rendering => Other rendering
               | None => Object_prototype_get [] k
               end
      end
  | _ => Undefined
  end.

(** [Object.keys(obj)] for an element of the parsed array. *)
Definition Object_keys (obj : value) : list jsstring :=
  match obj with
  | VObj props => keys props
  | VArr elems => map decimal (seq 0 (length elems))
  | _ => []
  end.

End Values.

Arguments VNull {number}.
Arguments VBool {number} b.
Arguments VNum {number} n.
Arguments VStr {number} s.
Arguments VArr {number} elems.
Arguments VObj {number} props.
Arguments Undefined {number}.
Arguments Json {number} v.
Arguments Other {number} rendering.
Arguments typeof {number} v.
Arguments ToString {number} Number_toString v.
Arguments isArray {number} v.
Arguments Get {number} Array_prototype obj k.
Arguments Object_keys {number} obj.
Arguments Object_prototype_get {number} proto k.

(** ** [Array.from(new Set(...))]

    A [Set] keeps its elements in insertion order and ignores the
    insertion of an element it already has. *)
Definition Set_add (s : list jsstring) (k : jsstring) : list jsstring :=
  if existsb (str_eqb k) s then s else s ++ [k].

Definition Set_from (l : list jsstring) : list jsstring :=
  fold_left Set_add l [].

(** ** [JSON.stringify(records, null, 2)] on records of strings *)

Definition hex_digit (n : N) : code_unit :=
  if (n <? 10)%N then (48 + n)%N else (87 + n)%N.

(** [\uXXXX] with lower-case hexadecimal digits. *)
Definition unicode_escape (c : code_unit) : jsstring :=
  [BACKSLASH; 117%N;
   hex_digit ((c / 4096) mod 16); hex_digit ((c / 256) mod 16);
   hex_digit ((c / 16) mod 16); hex_digit (c mod 16)]%N.

Definition is_high_surrogate (c : code_unit) : bool :=
  (55296 <=? c)%N && (c <=? 56319)%N.
Definition is_low_surrogate (c : code_unit) : bool :=
  (56320 <=? c)%N && (c <=? 57343)%N.

Definition quote_unit (c : code_unit) : jsstring :=
  if (c =? 8)%N then [BACKSLASH; 98%N]
  else if (c =? 9)%N then [BACKSLASH; 116%N]
  else if (c =? 10)%N then [BACKSLASH; 110%N]
  else if (c =? 12)%N then [BACKSLASH; 102%N]
  else if (c =? 13)%N then [BACKSLASH; 114%N]
  else if (c =? DQUOTE)%N then [BACKSLASH; DQUOTE]
  else if (c =? BACKSLASH)%N then [BACKSLASH; BACKSLASH]
  else if (c <? 32)%N || is_high_surrogate c || is_low_surrogate c
       then unicode_escape c
  else [c].

(** The body of QuoteJSONString: a surrogate pair is copied, a lone
    surrogate is escaped. *)
Fixpoint quote_units (s : jsstring) : jsstring :=
  match s with
  | [] => []
  | c :: r =>
      match r with
      | d :: r' =>
          if is_high_surrogate c && is_low_surrogate d
          then c :: d :: quote_units r'
          else quote_unit c ++ quote_units r
      | [] => quote_unit c
      end
  end.

Definition QuoteJSONString (s : jsstring) : jsstring :=
  [DQUOTE] ++ quote_units s ++ [DQUOTE].

Definition stringify_record (o : object jsstring) : jsstring :=
  match o with
  | [] => js "{}"
  | _ :: _ =>
      js "{" ++ [LF] ++ js "    "
      ++ join (js "," ++ [LF] ++ js "    ")
           (map (fun p => QuoteJSONString (fst p) ++ js ": "
                          ++ QuoteJSONString (snd p)) o)
      ++ [LF] ++ js "  }"
  end.

Definition JSON_stringify (records : list (object jsstring)) : jsstring :=
  match records with
  | [] => js "[]"
  | _ :: _ =>
      js "[" ++ [LF] ++ js "  "
      ++ join (js "," ++ [LF] ++ js "  ") (map stringify_record records)
      ++ [LF] ++ js "]"
  end.

End JS.

(** ** The component *)

Module Converter.
Import JS.

(** [interface ConversionError] *)
Record ConversionError : Type := {
  message : jsstring;
  details : option jsstring
}.

Inductive Mode : Type := csv2json | json2csv.

(** The state hooks of the component. *)
Record State : Type := {
  input : jsstring;
  output : jsstring;
  error : option ConversionError;
  mode : Mode;
  copied : bool
}.

Definition setInput (v : jsstring) (s : State) : State :=
  {| input := v; output := output s; error := error s; mode := mode s;
     copied := copied s |}.
Definition setOutput (v : jsstring) (s : State) : State :=
  {| input := input s; output := v; error := error s; mode := mode s;
     copied := copied s |}.
Definition setError (v : option ConversionError) (s : State) : State :=
  {| input := input s; output := output s; error := v; mode := mode s;
     copied := copied s |}.
Definition setMode (v : Mode) (s : State) : State :=
  {| input := input s; output := output s; error := error s; mode := v;
     copied := copied s |}.

(** [useState] initial values. *)
Definition initial : State :=
  {| input := []; output := []; error := None; mode := csv2json;
     copied := false |}.

(** *** parseCSV *)

Definition too_few_lines : jsstring :=
  js "CSV must contain at least a header row and one data row".

Definition empty_header : jsstring := js "CSV headers cannot be empty".

(** The message of the row-width error, for the row at [index] of
    [lines.slice(1)]. *)
Definition row_error (index nvalues nheaders : nat) : jsstring :=
  js "Row " ++ decimal (index + 2) ++ js " has " ++ decimal nvalues
  ++ js " values but should have " ++ decimal nheaders
  ++ js " (matching headers)".

(** [headers.reduce((obj, header, i) => ..., {})], from index [i] on. *)
Fixpoint reduce_headers (values : list jsstring) (headers : list jsstring)
    (i : nat) (obj : object jsstring) : object jsstring :=
  match headers with
  | [] => obj
  | header :: rest =>
      reduce_headers values rest (S i) (assign obj header (nth i values []))
  end.

(** The callback of [lines.slice(1).map]. *)
Definition parse_row (headers : list jsstring) (line : jsstring) (index : nat)
    : result (object jsstring) :=
  let values := map trim (split COMMA line) in
  if negb (length values =? length headers)
  then Throw (row_error index (length values) (length headers))
  else Ok (reduce_headers values headers 0 []).

(** [Array.prototype.map] with a callback that may throw, from [index]. *)
Fixpoint map_rows (headers : list jsstring) (lines : list jsstring)
    (index : nat) : result (list (object jsstring)) :=
  match lines with
  | [] => Ok []
  | line :: rest =>
      record <- parse_row headers line index ;;
      records <- map_rows headers rest (S index) ;;
      Ok (record :: records)
  end.

Definition parseCSV (csv : jsstring) : result (list (object jsstring)) :=
  let lines := split_lines (trim csv) in
  if length lines <? 2 then Throw too_few_lines
  else
    let headers := map trim (split COMMA (nth 0 lines [])) in
    if existsb is_empty headers then Throw empty_header
    else map_rows headers (tl lines) 0.

Section Engine.

Variable number : Type.
Variable Number_toString : number -> jsstring.
Variable Array_prototype : list (jsstring * jsstring).

(** [JSON.parse]: the parsed value, or a SyntaxError. *)
Variable JSON_parse : jsstring -> result (value number).

(** *** parseJSON *)

Definition not_an_array : jsstring := js "Input must be an array of objects".
Definition empty_array : jsstring := js "JSON array cannot be empty".
Definition not_objects : jsstring :=
  js "All items in the array must be objects".

(** [typeof item === 'object' && item !== null] *)
Definition is_object_item (item : value number) : bool :=
  str_eqb (typeof item) (js "object")
  && negb (match item with VNull => true | _ => false end).

Definition parseJSON (json : jsstring) : result (list (value number)) :=
  data <- JSON_parse json ;;
  match data with
  | VArr items =>
      if length items =? 0 then Throw empty_array
      else if negb (forallb is_object_item items) then Throw not_objects
      else Ok items
  | _ => Throw not_an_array
  end.

(** *** The CSV serializer (the else branch of [convertData]) *)

Definition has_special (stringValue : jsstring) : bool :=
  includes [COMMA] stringValue || includes [DQUOTE] stringValue
  || includes [LF] stringValue.

Definition escape (stringValue : jsstring) : jsstring :=
  if has_special stringValue
  then [DQUOTE] ++ double_quotes stringValue ++ [DQUOTE]
  else stringValue.

(** The callback of [headers.map]. *)
Definition field (obj : value number) (header : jsstring) : result jsstring :=
  match Get Array_prototype obj header with
  | Undefined => Ok []
  | Json VNull => Ok []
  | Json v => stringValue <- ToString Number_toString v ;; Ok (escape stringValue)
  | Other rendering => Ok (escape rendering)
  end.

Fixpoint fields (obj : value number) (headers : list jsstring)
    : result (list jsstring) :=
  match headers with
  | [] => Ok []
  | header :: rest =>
      f <- field obj header ;; fs <- fields obj rest ;; Ok (f :: fs)
  end.

(** The callback of [jsonData.map]. *)
Definition row (headers : list jsstring) (obj : value number) : result jsstring :=
  fs <- fields obj headers ;; Ok (join [COMMA] fs).

Fixpoint rows (headers : list jsstring) (jsonData : list (value number))
    : result (list jsstring) :=
  match jsonData with
  | [] => Ok []
  | obj :: rest =>
      r <- row headers obj ;; rs <- rows headers rest ;; Ok (r :: rs)
  end.

Definition unified_headers (jsonData : list (value number)) : list jsstring :=
  Set_from (flat_map Object_keys jsonData).

Definition serializeCSV (jsonData : list (value number)) : result jsstring :=
  let headers := unified_headers jsonData in
  rs <- rows headers jsonData ;;
  Ok (join [LF] (join [COMMA] headers :: rs)).

(** *** convertData *)

(** The routines a run of [convertData] enters, in order. *)
Inductive call : Type :=
| CallParseCSV
| CallStringify
| CallParseJSON
| CallSerializeCSV.

Definition enter_data : jsstring := js "Please enter some data to convert".
Definition conversion_failed : jsstring := js "Conversion failed".

(** The catch block. *)
Definition on_catch (msg : jsstring) (s : State) : State :=
  setOutput []
    (setError (Some {| message := conversion_failed; details := Some msg |}) s).

(** One run of [convertData] from state [s0]: the state after it and the
    routines it entered. *)
Definition run_convertData (s0 : State) : State * list call :=
  let s := setError None s0 in
  if is_empty (trim (input s0))
  then (setError (Some {| message := enter_data; details := None |}) s, [])
  else
    match mode s0 with
    | csv2json =>
        match parseCSV (input s0) with
        | Ok records =>
            (setOutput (JSON_stringify records) s,
             [CallParseCSV; CallStringify])
        | Throw msg => (on_catch msg s, [CallParseCSV])
        end
    | json2csv =>
        match parseJSON (input s0) with
        | Ok jsonData =>
            match serializeCSV jsonData with
            | Ok csv => (setOutput csv s, [CallParseJSON; CallSerializeCSV])
            | Throw msg => (on_catch msg s, [CallParseJSON; CallSerializeCSV])
            end
        | Throw msg => (on_catch msg s, [CallParseJSON])
        end
    end.

Definition convertData (s : State) : State := fst (run_convertData s).

(** *** The other handlers that write the state *)

Inductive event : Type :=
| Edit (v : jsstring)                (* onChange of the input textarea *)
| Toggle                             (* the mode button *)
| Convert                            (* the Convert button *)
| Loaded (name content : jsstring)   (* onload of the file reader *)
| LoadFailed.                        (* onerror of the file reader *)

(** [name.endsWith(suffix)] *)
Definition endsWith (name suffix : jsstring) : bool :=
  starts_with (rev suffix) (rev name).

Definition failed_to_read : jsstring := js "Failed to read file".

Definition toggle (m : Mode) : Mode :=
  match m with
  | csv2json => json2csv
  | json2csv => csv2json
  end.

Definition handle (s : State) (e : event) : State :=
  match e with
  | Edit v => setError None (setInput v s)
  | Toggle => setOutput [] (setError None (setMode (toggle (mode s)) s))
  | Convert => convertData s
  | Loaded name content =>
      let s' := setError None (setInput content s) in
      if endsWith name (js ".csv") then setMode csv2json s'
      else if endsWith name (js ".json") then setMode json2csv s'
      else s'
  | LoadFailed =>
      setError (Some {| message := failed_to_read; details := None |}) s
  end.

Definition run_events (es : list event) : State := fold_left handle es initial.

(** *** The try block and downloadOutput *)

(** The body of the try block of [convertData]: the text it passes to
    [setOutput], or the error it throws. *)
Definition conversion (m : Mode) (text : jsstring) : result jsstring :=
  match m with
  | csv2json => records <- parseCSV text ;; Ok (JSON_stringify records)
  | json2csv => jsonData <- parseJSON text ;; serializeCSV jsonData
  end.

(** What [downloadOutput] hands to the browser: the [download] attribute
    of the anchor it clicks and the text of the blob behind it. *)
Record download : Type := {
  file_name : jsstring;
  content : jsstring
}.

Definition downloadOutput (s : State) : download :=
  {| file_name := js "converted."
                  ++ match mode s with
                     | csv2json => js "json"
                     | json2csv => js "csv"
                     end;
     content := output s |}.

End Engine.

End Converter.

(** ** A reference engine

    An instance of the parameters above, used to run the component on
    concrete texts: numbers are the integers below 2^53 in absolute value,
    printed in decimal, and [JSON.parse] is a reader of JSON texts whose
    numerals are such integers.  A numeral with a fraction or an exponent
    lies outside this instance and is reported as a syntax error. *)

Module Ref.
Import JS.

Definition number := Z.

Definition Number_toString (z : number) : jsstring :=
  let digits := uint_units (N.to_uint (Z.abs_N z)) in
  if (z <? 0)%Z then 45%N :: digits else digits.

(** [Array.prototype] of ECMAScript 2023. *)
Definition Array_prototype : list (jsstring * jsstring) :=
  (js "constructor", native (js "Array"))
  :: map (fun name => (js name, native (js name)))
       ["at"; "concat"; "copyWithin"; "fill"; "find"; "findIndex";
        "findLast"; "findLastIndex"; "lastIndexOf"; "pop"; "push";
        "reverse"; "shift"; "unshift"; "slice"; "sort"; "splice";
        "includes"; "indexOf"; "join"; "keys"; "entries"; "values";
        "forEach"; "filter"; "flat"; "flatMap"; "map"; "every"; "some";
        "reduce"; "reduceRight"; "toLocaleString"; "toString";
        "toReversed"; "toSorted"; "toSpliced"; "with"]%string.

Definition is_json_ws (c : code_unit) : bool :=
  (c =? SPACE)%N || (c =? TAB)%N || (c =? LF)%N || (c =? CR)%N.

Fixpoint skip_ws (s : jsstring) : jsstring :=
  match s with
  | [] => []
  | c :: r => if is_json_ws c then skip_ws r else s
  end.

(** [s] without the prefix [p], when it starts with it. *)
Fixpoint strip_prefix (p s : jsstring) : option jsstring :=
  match p, s with
  | [], _ => Some s
  | _ :: _, [] => None
  | a :: p', b :: s' => if (a =? b)%N then strip_prefix p' s' else None
  end.

Definition hex_value (c : code_unit) : option N :=
  if is_digit c then Some (c - 48)%N
  else if (97 <=? c)%N && (c <=? 102)%N then Some (c - 87)%N
  else if (65 <=? c)%N && (c <=? 70)%N then Some (c - 55)%N
  else None.

(** The code unit an escape letter stands for. *)
Definition escape_unit (c : code_unit) : option code_unit :=
  if (c =? DQUOTE)%N then Some DQUOTE
  else if (c =? BACKSLASH)%N then Some BACKSLASH
  else if (c =? 47)%N then Some 47%N
  else if (c =? 98)%N then Some 8%N
  else if (c =? 102)%N then Some 12%N
  else if (c =? 110)%N then Some LF
  else if (c =? 114)%N then Some CR
  else if (c =? 116)%N then Some TAB
  else None.

(** The characters of a string literal after its opening quote. *)
Fixpoint read_chars (fuel : nat) (s : jsstring) : option (jsstring * jsstring) :=
  match fuel with
  | 0 => None
  | S fuel =>
      match s with
      | [] => None
      | c :: r =>
          if (c =? DQUOTE)%N then Some ([], r)
          else if (c <? 32)%N then None
          else if (c =? BACKSLASH)%N then
            match r with
            | 117%N :: h1 :: h2 :: h3 :: h4 :: r' =>
                match hex_value h1, hex_value h2, hex_value h3, hex_value h4 with
                | Some a, Some b, Some c', Some d =>
                    match read_chars fuel r' with
                    | Some (t, rest) =>
                        Some ((a * 4096 + b * 256 + c' * 16 + d)%N :: t, rest)
                    | None => None
                    end
                | _, _, _, _ => None
                end
            | e :: r' =>
                match escape_unit e, read_chars fuel r' with
                | Some u, Some (t, rest) => Some (u :: t, rest)
                | _, _ => None
                end
            | [] => None
            end
          else
            match read_chars fuel r with
            | Some (t, rest) => Some (c :: t, rest)
            | None => None
            end
      end
  end.

Fixpoint read_digits (s : jsstring) : jsstring * jsstring :=
  match s with
  | [] => ([], [])
  | c :: r =>
      if is_digit c then let (ds, rest) := read_digits r in (c :: ds, rest)
      else ([], s)
  end.

(** An integer numeral without sign: no leading zero, no fraction, no
    exponent, below 2^53. *)
Definition read_natural (s : jsstring) : option (N * jsstring) :=
  let (ds, rest) := read_digits s in
  match ds with
  | [] => None
  | d :: ds' =>
      if (d =? 48)%N && negb (is_empty ds') then None
      else if head_is 46%N rest || head_is 101%N rest || head_is 69%N rest
      then None
      else if (length ds <=? 16) && (index_value ds <? 9007199254740992)%N
      then Some (index_value ds, rest)
      else None
  end.

Fixpoint read_value (fuel : nat) (s : jsstring) : option (value number * jsstring) :=
  match fuel with
  | 0 => None
  | S fuel =>
      match skip_ws s with
      | [] => None
      | c :: r =>
          if (c =? 110)%N then
            option_map (fun rest => (VNull, rest)) (strip_prefix (js "ull") r)
          else if (c =? 116)%N then
            option_map (fun rest => (VBool true, rest)) (strip_prefix (js "rue") r)
          else if (c =? 102)%N then
            option_map (fun rest => (VBool false, rest)) (strip_prefix (js "alse") r)
          else if (c =? DQUOTE)%N then
            option_map (fun p => (VStr (fst p), snd p)) (read_chars (S (length r)) r)
          else if (c =? 45)%N then
            option_map (fun p => (VNum (- Z.of_N (fst p))%Z, snd p)) (read_natural r)
          else if is_digit c then
            option_map (fun p => (VNum (Z.of_N (fst p)), snd p)) (read_natural (c :: r))
          else if (c =? 91)%N then
            match skip_ws r with
            | 93%N :: rest => Some (VArr [], rest)
            | _ => read_elements fuel r []
            end
          else if (c =? 123)%N then
            match skip_ws r with
            | 125%N :: rest => Some (VObj [], rest)
            | _ => read_members fuel r []
            end
          else None
      end
  end
with read_elements (fuel : nat) (s : jsstring) (acc : list (value number))
    : option (value number * jsstring) :=
  match fuel with
  | 0 => None
  | S fuel =>
      match read_value fuel s with
      | Some (v, r) =>
          match skip_ws r with
          | c :: rest =>
              if (c =? COMMA)%N then read_elements fuel rest (acc ++ [v])
              else if (c =? 93)%N then Some (VArr (acc ++ [v]), rest)
              else None
          | [] => None
          end
      | None => None
      end
  end
with read_members (fuel : nat) (s : jsstring) (acc : object (value number))
    : option (value number * jsstring) :=
  match fuel with
  | 0 => None
  | S fuel =>
      match skip_ws s with
      | c :: r =>
          if (c =? DQUOTE)%N then
            match read_chars (S (length r)) r with
            | Some (k, r1) =>
                match skip_ws r1 with
                | c1 :: r2 =>
                    if (c1 =? 58)%N then
                      match read_value fuel r2 with
                      | Some (v, r3) =>
                          match skip_ws r3 with
                          | c3 :: rest =>
                              if (c3 =? COMMA)%N
                              then read_members fuel rest (define acc k v)
                              else if (c3 =? 125)%N
                              then Some (VObj (define acc k v), rest)
                              else None
                          | [] => None
                          end
                      | None => None
                      end
                    else None
                | [] => None
                end
            | None => None
            end
          else None
      | [] => None
      end
  end.

Definition syntax_error : jsstring := js "Unexpected token in JSON".

Definition JSON_parse (text : jsstring) : result (value number) :=
  match read_value (2 * length text + 2) text with
  | Some (v, rest) => if is_empty (skip_ws rest) then Ok v else Throw syntax_error
  | None => Throw syntax_error
  end.

(** Texts for the examples: lines joined with LF, and JSON written with
    apostrophes in place of double quotes. *)
Definition text (lines : list string) : jsstring := join [LF] (map js lines).

Definition quoted (s : string) : jsstring :=
  map (fun c => if (c =? 39)%N then DQUOTE else c) (js s).

Definition quoted_text (lines : list string) : jsstring :=
  join [LF] (map quoted lines).

Definition parseJSON := Converter.parseJSON number JSON_parse.
Definition serializeCSV := Converter.serializeCSV number Number_toString Array_prototype.
Definition convertData :=
  Converter.convertData number Number_toString Array_prototype JSON_parse.
Definition run_events :=
  Converter.run_events number Number_toString Array_prototype JSON_parse.

End Ref.

(** * Properties *)

Import JS Converter.

(** ** Vocabulary of the statements *)

(** A text is blank when it is empty or holds white space only. *)
Definition blank (s : jsstring) : Prop :=
  Forall (fun c => is_white_space c = true) s.

(** The header fields of a CSV text and its data rows, each split into
    its trimmed values. *)
Definition csv_lines (csv : jsstring) : list jsstring := split_lines (trim csv).
Definition csv_fields (line : jsstring) : list jsstring :=
  map trim (split COMMA line).

(** [csv] is a well-formed CSV text with header fields [headers] and data
    lines [rows]: a header line and at least one data line, no empty
    header field, and as many values on each data line as header fields. *)
Definition valid_csv (csv : jsstring) (headers : list jsstring)
    (rows : list jsstring) : Prop :=
  exists header_line,
    csv_lines csv = header_line :: rows
    /\ rows <> []
    /\ csv_fields header_line = headers
    /\ Forall (fun h => h <> []) headers
    /\ Forall (fun line => length (csv_fields line) = length headers) rows.

(** [a] may come before [b] among the keys of an ordinary object: the
    keys differ, and when [b] is an array index so is [a], with a smaller
    value. *)
Definition precedes (a b : jsstring) : Prop :=
  a <> b
  /\ (is_array_index b = true ->
      is_array_index a = true /\ (index_value a < index_value b)%N).

(** A list of keys is in property order when an ordinary object
    enumerates its keys in that order: distinct keys, array indices first
    and ascending. *)
Definition property_order (ks : list jsstring) : Prop :=
  ForallOrdPairs precedes ks.

(** A string has no outer space when it neither begins nor ends with a
    white-space unit; the empty string has none. *)
Definition no_outer_space (s : jsstring) : Prop :=
  is_white_space (hd 0%N s) = false /\ is_white_space (last s 0%N) = false.

(** A field the serializer writes as it is and the parser reads back as
    it is: no comma, no double quote, no newline, no outer space. *)
Definition plain_field (s : jsstring) : Prop :=
  ~ In COMMA s /\ ~ In DQUOTE s /\ ~ In LF s /\ no_outer_space s.

(** A key that survives as a header field: not empty, no comma, no
    newline, no outer space, and not [__proto__]. *)
Definition plain_key (k : jsstring) : Prop :=
  k <> [] /\ ~ In COMMA k /\ ~ In LF k /\ no_outer_space k
  /\ k <> js "__proto__".

(** The CSV text of a header and of rows given by their fields. *)
Definition csv_text (headers : list jsstring) (table : list (list jsstring))
    : jsstring :=
  join [LF] (join [COMMA] headers :: map (join [COMMA]) table).

(** [s] is the rendering [String(v)] of a value [v] other than null. *)
Definition renders {number} (Number_toString : number -> jsstring)
    (v : value number) (s : jsstring) : Prop :=
  v <> VNull /\ ToString Number_toString v = Ok s.

(** [o] is the object [props] with every value replaced by its
    rendering: the same keys in the same order. *)
Definition record_renders {number} (Number_toString : number -> jsstring)
    (props : object (value number)) (o : object jsstring) : Prop :=
  Forall2 (fun p q => fst p = fst q /\ renders Number_toString (snd p) (snd q))
    props o.

(** [o] has the keys of [props] in the same order, each bound to the
    rendering of the value it has in [props]: the same record up to
    stringification. *)
Definition same_up_to_rendering {number} (Number_toString : number -> jsstring)
    (props : object (value number)) (o : object jsstring) : Prop :=
  Forall2 (fun p q => fst p = fst q
                      /\ ToString Number_toString (snd p) = Ok (snd q))
    props o.

(** No value of the record has a rendering with a comma, a double quote
    or a newline. *)
Definition no_special_value {number} (Number_toString : number -> jsstring)
    (props : object (value number)) : Prop :=
  Forall (fun p => exists s, ToString Number_toString (snd p) = Ok s
                             /\ ~ In COMMA s /\ ~ In DQUOTE s /\ ~ In LF s)
    props.

(** The keys of a list in first-occurrence order: each key once, at the
    place where it first occurs. *)
Fixpoint first_occurrences (l : list jsstring) : list jsstring :=
  match l with
  | [] => []
  | k :: r => k :: filter (fun k' => negb (str_eqb k' k)) (first_occurrences r)
  end.

(** A numeral of decimal digits that does not begin with a zero. *)
Definition no_leading_zero (l : jsstring) : Prop :=
  Forall (fun c => is_digit c = true) l /\ hd 49%N l <> 48%N.

(** The value of the last column whose header is [h], for a row given by
    its header fields and its values. *)
Fixpoint lookup_last (h : jsstring) (headers values : list jsstring)
    : option jsstring :=
  match headers, values with
  | header :: headers', v :: values' =>
      match lookup_last h headers' values' with
      | Some x => Some x
      | None => if str_eqb header h then Some v else None
      end
  | _, _ => None
  end.

(** A record of strings as the JSON object with the same keys and the
    same strings. *)
Definition as_json {number} (record : object jsstring) : value number :=
  VObj (map (fun q => (fst q, VStr (snd q))) record).

(** An event other than the arrival of an uploaded file. *)
Definition no_upload (e : event) : Prop :=
  match e with
  | Loaded _ _ => False
  | _ => True
  end.

(** JSON values that are neither arrays nor objects. *)
Definition null_or_scalar {number} (v : value number) : Prop :=
  match v with
  | VNull | VBool _ | VNum _ | VStr _ => True
  | VArr _ | VObj _ => False
  end.

(** Non-null values of object type: arrays and objects. *)
Definition non_null_object {number} (v : value number) : Prop :=
  match v with
  | VArr _ | VObj _ => True
  | _ => False
  end.

(** An element of the parsed array whose own values are null or scalars:
    a flat record. *)
Definition flat_item {number} (v : value number) : Prop :=
  match v with
  | VObj props => Forall (fun p => null_or_scalar (snd p)) props
  | VArr elems => Forall null_or_scalar elems
  | _ => False
  end.

(** Tactics for closed goals on concrete strings: two strings differ, a
    unit does not occur in a string, a list of keys is in property order. *)
Ltac differ := let E := fresh in intros E; vm_compute in E; discriminate E.
Ltac absent := let H := fresh in intros H; vm_compute in H; intuition discriminate.
Ltac ordered :=
  repeat first [ apply FOP_nil | apply Forall_nil | apply FOP_cons
               | apply Forall_cons | split; [differ | differ] ].

(** ** Strings *)

Lemma str_eqb_eq (a b : jsstring) : str_eqb a b = true <-> a = b.
Proof.
  revert b; induction a as [|x a IH]; intros [|y b]; simpl; split;
    try congruence; try reflexivity.
  - intros H. apply andb_prop in H as [Hx Ha].
    apply N.eqb_eq in Hx. apply IH in Ha. congruence.
  - intros H. injection H as -> ->.
    rewrite N.eqb_refl. simpl. now apply IH.
Qed.

Lemma str_eqb_refl (a : jsstring) : str_eqb a a = true.
Proof. now apply str_eqb_eq. Qed.

Lemma str_eqb_neq (a b : jsstring) : str_eqb a b = false <-> a <> b.
Proof.
  split.
  - intros H E. apply str_eqb_eq in E. congruence.
  - intros H. destruct (str_eqb a b) eqn:E; [|reflexivity].
    apply str_eqb_eq in E. contradiction.
Qed.

Lemma trimStart_blank (s : jsstring) : blank s -> trimStart s = [].
Proof.
  induction 1 as [|c s Hc _ IH]; simpl; [reflexivity|].
  now rewrite Hc.
Qed.

Lemma trim_blank (s : jsstring) : blank s -> trim s = [].
Proof.
  intros H. unfold trim, trimEnd. now rewrite (trimStart_blank s H).
Qed.

(** [includes] with a one-unit needle is membership. *)
Lemma includes_unit (c : code_unit) (s : jsstring) :
  includes [c] s = true <-> In c s.
Proof.
  induction s as [|d s IH]; simpl.
  - split; [discriminate | tauto].
  - rewrite orb_true_iff, andb_true_r, N.eqb_eq, IH.
    split; intros [H|H]; auto.
Qed.

Lemma includes_unit_false (c : code_unit) (s : jsstring) :
  includes [c] s = false <-> ~ In c s.
Proof.
  rewrite <- includes_unit. destruct (includes [c] s); split; congruence.
Qed.

(** *** Trimming *)

Lemma trimStart_fixed (s : jsstring) :
  is_white_space (hd 0%N s) = false -> trimStart s = s.
Proof. destruct s as [|c s]; simpl; [reflexivity|]. now intros ->. Qed.

Lemma last_snoc (l : jsstring) (c d : code_unit) : last (l ++ [c]) d = c.
Proof. apply last_last. Qed.

Lemma trimEnd_fixed (s : jsstring) :
  is_white_space (last s 0%N) = false -> trimEnd s = s.
Proof.
  unfold trimEnd. induction s as [|c l _] using rev_ind; [reflexivity|].
  rewrite last_snoc. intros Hc. rewrite rev_unit. simpl. rewrite Hc.
  simpl. now rewrite rev_involutive.
Qed.

Lemma trim_fixed (s : jsstring) : no_outer_space s -> trim s = s.
Proof.
  intros [Hstart Hend]. unfold trim.
  rewrite (trimStart_fixed s Hstart). now apply trimEnd_fixed.
Qed.

Lemma last_app_cons (a b : jsstring) (c d : code_unit) :
  last (a ++ c :: b) d = last (c :: b) d.
Proof.
  induction a as [|x a IH]; [reflexivity|].
  change (last ((x :: a) ++ c :: b) d)
    with (match a ++ c :: b with
          | [] => x
          | _ :: _ => last (a ++ c :: b) d
          end).
  rewrite <- IH.
  destruct (a ++ c :: b) eqn:E; [destruct a; discriminate | reflexivity].
Qed.

(** *** Splitting what was joined *)

Lemma split_pieces_whole (sep : code_unit) (l : jsstring) :
  ~ In sep l -> split_pieces sep l = (l, []).
Proof.
  induction l as [|c l IH]; simpl; intros H; [reflexivity|].
  rewrite IH by tauto.
  destruct (N.eqb_spec c sep) as [->|_]; [tauto | reflexivity].
Qed.

Lemma split_pieces_app (sep : code_unit) (l rest : jsstring) :
  ~ In sep l -> split_pieces sep (l ++ sep :: rest) = (l, split sep rest).
Proof.
  induction l as [|c l IH]; simpl; intros H.
  - unfold split. destruct (split_pieces sep rest). now rewrite N.eqb_refl.
  - rewrite IH by tauto.
    destruct (N.eqb_spec c sep) as [->|_]; [tauto | reflexivity].
Qed.

Lemma split_join (sep : code_unit) (fs : list jsstring) :
  fs <> [] ->
  Forall (fun f => ~ In sep f) fs ->
  split sep (join [sep] fs) = fs.
Proof.
  induction fs as [|x fs IH]; [congruence|]. intros _ H.
  inversion H as [|? ? Hx Hfs]; subst.
  destruct fs as [|y fs].
  - simpl. unfold split. now rewrite split_pieces_whole.
  - change (join [sep] (x :: y :: fs)) with (x ++ sep :: join [sep] (y :: fs)).
    unfold split at 1. rewrite split_pieces_app by assumption.
    rewrite IH by (congruence || assumption). reflexivity.
Qed.

Lemma head_is_app_false (c : code_unit) (l rest : jsstring) :
  l <> [] -> ~ In c l -> head_is c (l ++ rest) = false.
Proof.
  destruct l as [|d l]; [congruence|]. simpl. intros _ H.
  apply N.eqb_neq. intros ->. tauto.
Qed.

Lemma line_pieces_whole (l : jsstring) :
  ~ In LF l -> line_pieces l = (l, []).
Proof.
  induction l as [|c l IH]; simpl; intros H; [reflexivity|].
  rewrite IH by tauto.
  destruct (N.eqb_spec c LF) as [->|_]; [exfalso; apply H; now left|].
  replace (head_is LF l) with false; [now rewrite andb_false_r|].
  destruct l as [|d l]; [reflexivity|]. simpl.
  symmetry. apply N.eqb_neq. intros ->. apply H. right. now left.
Qed.

(** A line without LF that does not end in CR is cut off whole at the LF
    that follows it. *)
Lemma line_pieces_app (l rest : jsstring) :
  ~ In LF l -> last l 0%N <> CR ->
  line_pieces (l ++ LF :: rest) = (l, split_lines rest).
Proof.
  induction l as [|c l IH]; intros Hlf Hcr.
  - simpl. unfold split_lines. now destruct (line_pieces rest).
  - simpl in Hlf.
    assert (Hl : last l 0%N <> CR \/ l = []).
    { destruct l; [now right|left]. exact Hcr. }
    change (line_pieces ((c :: l) ++ LF :: rest))
      with (let (f, fs) := line_pieces (l ++ LF :: rest) in
            if (c =? LF)%N then ([], f :: fs)
            else if (c =? CR)%N && head_is LF (l ++ LF :: rest) then (f, fs)
            else (c :: f, fs)).
    destruct (N.eqb_spec c LF) as [->|_]; [exfalso; apply Hlf; now left|].
    destruct l as [|d l].
    + simpl in Hcr. simpl.
      destruct (N.eqb_spec c CR) as [->|_]; [congruence|].
      unfold split_lines. now destruct (line_pieces rest).
    + rewrite IH; [|tauto|destruct Hl; [assumption|discriminate]].
      rewrite head_is_app_false; [|discriminate|tauto].
      now rewrite andb_false_r.
Qed.

Lemma split_lines_join (ls : list jsstring) :
  ls <> [] ->
  Forall (fun l => ~ In LF l /\ last l 0%N <> CR) ls ->
  split_lines (join [LF] ls) = ls.
Proof.
  induction ls as [|x ls IH]; [congruence|]. intros _ H.
  inversion H as [|? ? [Hlf Hcr] Hls]; subst.
  destruct ls as [|y ls].
  - simpl. unfold split_lines. now rewrite line_pieces_whole.
  - change (join [LF] (x :: y :: ls)) with (x ++ LF :: join [LF] (y :: ls)).
    unfold split_lines at 1. rewrite line_pieces_app by assumption.
    rewrite IH by (congruence || assumption). reflexivity.
Qed.

(** *** Where a joined text begins and ends *)

Lemma join_cons2 (sep : jsstring) (x y : jsstring) (l : list jsstring) :
  join sep (x :: y :: l) = x ++ sep ++ join sep (y :: l).
Proof. reflexivity. Qed.

Lemma hd_app (a b : jsstring) (d : code_unit) :
  a <> [] -> hd d (a ++ b) = hd d a.
Proof. destruct a; [congruence | reflexivity]. Qed.

Lemma hd_join (sep : jsstring) (x : jsstring) (l : list jsstring) (d : code_unit) :
  x <> [] -> hd d (join sep (x :: l)) = hd d x.
Proof.
  intros Hx. destruct l as [|y l]; [reflexivity|].
  rewrite join_cons2. now apply hd_app.
Qed.

Lemma In_join (c sep : code_unit) (fs : list jsstring) :
  In c (join [sep] fs) -> c = sep \/ exists f, In f fs /\ In c f.
Proof.
  induction fs as [|x fs IH]; [contradiction|].
  destruct fs as [|y fs].
  - simpl. intros H. right. exists x. split; [now left | exact H].
  - rewrite join_cons2. intros H.
    apply in_app_or in H as [H|H]; [right; exists x; split; [now left|exact H]|].
    destruct H as [H|H]; [now left|].
    destruct (IH H) as [E|(f & Hf & Hc)]; [now left|].
    right. exists f. split; [now right | exact Hc].
Qed.

(** The last unit of a joined text is the separator or the last unit of
    a piece. *)
Lemma last_join (sep : code_unit) (fs : list jsstring) (P : code_unit -> Prop) :
  P 0%N -> P sep -> Forall (fun f => P (last f 0%N)) fs ->
  P (last (join [sep] fs) 0%N).
Proof.
  intros H0 Hsep. induction fs as [|x fs IH]; intros H; [exact H0|].
  inversion H as [|? ? Hx Hfs]; subst.
  destruct fs as [|y fs]; [exact Hx|].
  rewrite join_cons2. specialize (IH Hfs).
  remember (join [sep] (y :: fs)) as rest eqn:E. clear E.
  change (x ++ [sep] ++ rest) with (x ++ sep :: rest). rewrite last_app_cons.
  destruct rest as [|c r]; [exact Hsep | exact IH].
Qed.

(** ** Ordinary objects *)

Lemma own_None {A} (o : object A) (k : jsstring) :
  ~ In k (keys o) -> own o k = None.
Proof.
  induction o as [|[k' v] o IH]; simpl; intros H; [reflexivity|].
  destruct (str_eqb k' k) eqn:E.
  - apply str_eqb_eq in E. tauto.
  - apply IH. tauto.
Qed.

Lemma insert_index_last {A} (o : object A) (k : jsstring) (v : A) :
  Forall (fun k' => is_array_index k' = true
                    /\ (index_value k' < index_value k)%N) (keys o) ->
  insert_index o k v = o ++ [(k, v)].
Proof.
  induction o as [|[k' v'] o IH]; simpl; intros H; [reflexivity|].
  inversion H as [|? ? [Hidx Hlt] Hrest]; subst.
  apply N.ltb_lt in Hlt. rewrite Hidx, Hlt. simpl.
  now rewrite IH.
Qed.

Lemma property_order_app_head (l1 l2 : list jsstring) (k : jsstring) :
  property_order (l1 ++ k :: l2) -> Forall (fun a => precedes a k) l1.
Proof.
  unfold property_order.
  induction l1 as [|a l1 IH]; simpl; intros H; [constructor|].
  inversion H as [|? ? Ha Hrest]; subst.
  constructor.
  - rewrite Forall_forall in Ha. apply Ha. apply in_or_app. right. now left.
  - now apply IH.
Qed.

(** A key that may come after all keys of an object is added at its end. *)
Lemma define_last {A} (o : object A) (k : jsstring) (v : A) :
  Forall (fun a => precedes a k) (keys o) ->
  define o k v = o ++ [(k, v)].
Proof.
  intros H. unfold define, has_own.
  rewrite own_None.
  - destruct (is_array_index k) eqn:E; [|reflexivity].
    apply insert_index_last.
    apply Forall_impl with (2 := H). intros a [_ Ha]. now apply Ha.
  - intros Hin. rewrite Forall_forall in H.
    destruct (H k Hin) as [Hne _]. now apply Hne.
Qed.

Lemma keys_app {A} (o1 o2 : object A) : keys (o1 ++ o2) = keys o1 ++ keys o2.
Proof. unfold keys. apply map_app. Qed.

Lemma keys_combine {A} (ks : list jsstring) (vs : list A) :
  length vs = length ks -> keys (combine ks vs) = ks.
Proof.
  revert vs; induction ks as [|k ks IH]; intros [|v vs]; simpl;
    try discriminate; try reflexivity.
  intros H. f_equal. apply IH. congruence.
Qed.

Lemma property_order_NoDup (ks : list jsstring) : property_order ks -> NoDup ks.
Proof.
  induction 1 as [|k ks Hk _ IH]; constructor; [|exact IH].
  intros Hin. rewrite Forall_forall in Hk. now destruct (Hk k Hin).
Qed.

Lemma own_In {A} (o : object A) (k : jsstring) (v : A) :
  NoDup (keys o) -> In (k, v) o -> own o k = Some v.
Proof.
  induction o as [|[k' v'] o IH]; simpl; intros Hnd Hin; [contradiction|].
  inversion Hnd as [|? ? Hfresh Hnd']; subst.
  destruct Hin as [E|Hin].
  - injection E as -> ->. now rewrite str_eqb_refl.
  - destruct (str_eqb k' k) eqn:E; [|now apply IH].
    apply str_eqb_eq in E. subst k'. exfalso. apply Hfresh.
    unfold keys. apply in_map_iff. now exists (k, v).
Qed.

Lemma combine_fst_snd {A} (o : object A) : combine (map fst o) (map snd o) = o.
Proof.
  induction o as [|[k v] o IH]; simpl; [reflexivity | now rewrite IH].
Qed.

(** *** Array indices are canonical numerals *)

Lemma index_value_snoc (l : jsstring) (c : code_unit) :
  index_value (l ++ [c]) = (index_value l * 10 + (c - 48))%N.
Proof. unfold index_value. now rewrite fold_left_app. Qed.

Lemma no_leading_zero_prefix (l : jsstring) (c : code_unit) :
  no_leading_zero (l ++ [c]) -> no_leading_zero l.
Proof.
  intros [Hd Hz]. split.
  - apply Forall_app in Hd. tauto.
  - destruct l; [discriminate | exact Hz].
Qed.

Lemma is_digit_range (c : code_unit) :
  is_digit c = true -> (48 <= c <= 57)%N.
Proof.
  unfold is_digit. intros H. apply andb_prop in H as [H1 H2].
  apply N.leb_le in H1, H2. lia.
Qed.

Lemma no_leading_zero_positive (l : jsstring) :
  l <> [] -> no_leading_zero l -> (0 < index_value l)%N.
Proof.
  induction l as [|c l IH] using rev_ind; [congruence|]. intros _ H.
  rewrite index_value_snoc.
  destruct l as [|d l].
  - destruct H as [Hd Hz]. simpl in *. inversion Hd; subst.
    pose proof (is_digit_range c ltac:(assumption)). lia.
  - assert (0 < index_value (d :: l))%N.
    { apply IH; [discriminate | now apply no_leading_zero_prefix with c]. }
    lia.
Qed.

Lemma index_value_injective (a : jsstring) :
  forall b, no_leading_zero a -> no_leading_zero b ->
            index_value a = index_value b -> a = b.
Proof.
  induction a as [|x a IH] using rev_ind; intros b Ha Hb E.
  - destruct b as [|y b]; [reflexivity|].
    pose proof (no_leading_zero_positive (y :: b) ltac:(discriminate) Hb).
    simpl in E. unfold index_value in E at 1. simpl in E. lia.
  - destruct b as [|y b _] using rev_ind.
    + pose proof (no_leading_zero_positive (a ++ [x])
                    ltac:(now destruct a) Ha).
      unfold index_value in E at 2. simpl in E. lia.
    + rewrite !index_value_snoc in E.
      assert (Hx : (48 <= x <= 57)%N).
      { destruct Ha as [Hd _]. apply Forall_app in Hd as [_ Hd].
        inversion Hd; subst. now apply is_digit_range. }
      assert (Hy : (48 <= y <= 57)%N).
      { destruct Hb as [Hd _]. apply Forall_app in Hd as [_ Hd].
        inversion Hd; subst. now apply is_digit_range. }
      assert (x = y /\ index_value a = index_value b) as [-> E'] by lia.
      f_equal. apply IH; [| |exact E'].
      * now apply no_leading_zero_prefix with y.
      * now apply no_leading_zero_prefix with y.
Qed.

Lemma is_array_index_shape (k : jsstring) :
  is_array_index k = true -> k = [48%N] \/ (k <> [] /\ no_leading_zero k).
Proof.
  unfold is_array_index. destruct k as [|c r]; [discriminate|].
  intros H. apply andb_prop in H as [H _]. apply andb_prop in H as [H _].
  apply andb_prop in H as [Hd Hz].
  assert (Hdigits : Forall (fun d => is_digit d = true) (c :: r)).
  { apply Forall_forall. now apply forallb_forall. }
  apply orb_prop in Hz as [Hz|Hz].
  - destruct r; [|discriminate].
    destruct (N.eq_dec c 48) as [->|Hc]; [now left|right].
    split; [discriminate|]. split; [exact Hdigits | exact Hc].
  - right. split; [discriminate|]. split; [exact Hdigits|].
    simpl. apply negb_true_iff in Hz. now apply N.eqb_neq.
Qed.

(** Two array indices with the same value are the same key. *)
Lemma array_index_injective (a b : jsstring) :
  is_array_index a = true -> is_array_index b = true ->
  index_value a = index_value b -> a = b.
Proof.
  intros Ha Hb E.
  destruct (is_array_index_shape a Ha) as [->|[Hna Hza]];
    destruct (is_array_index_shape b Hb) as [->|[Hnb Hzb]].
  - reflexivity.
  - pose proof (no_leading_zero_positive b Hnb Hzb).
    unfold index_value in E at 1. simpl in E. lia.
  - pose proof (no_leading_zero_positive a Hna Hza).
    unfold index_value in E at 2. simpl in E. lia.
  - now apply index_value_injective.
Qed.

(** *** Property order is kept *)

Lemma own_Some_In {A} (o : object A) (k : jsstring) :
  In k (keys o) -> own o k <> None.
Proof.
  induction o as [|[k' v] o IH]; simpl; intros H; [contradiction|].
  destruct (str_eqb k' k) eqn:E; [discriminate|].
  destruct H as [->|H]; [now rewrite str_eqb_refl in E | now apply IH].
Qed.

Lemma has_own_In {A} (o : object A) (k : jsstring) :
  has_own o k = true <-> In k (keys o).
Proof.
  unfold has_own. split.
  - intros H. destruct (in_dec (list_eq_dec N.eq_dec) k (keys o)) as [Hin|Hout];
      [exact Hin|]. now rewrite (own_None o k Hout) in H.
  - intros H. apply own_Some_In in H. now destruct (own o k).
Qed.

Lemma keys_overwrite {A} (o : object A) (k : jsstring) (v : A) :
  keys (overwrite o k v) = keys o.
Proof.
  induction o as [|[k' v'] o IH]; simpl; [reflexivity|].
  destruct (str_eqb k' k); simpl; [reflexivity | now rewrite IH].
Qed.

Lemma keys_insert_index {A} (o : object A) (k : jsstring) (v : A) (k' : jsstring) :
  In k' (keys (insert_index o k v)) <-> k' = k \/ In k' (keys o).
Proof.
  induction o as [|[k0 v0] o IH]; simpl; [intuition congruence|].
  destruct (is_array_index k0 && (index_value k0 <? index_value k)%N); simpl.
  - rewrite IH. intuition congruence.
  - intuition congruence.
Qed.

Lemma keys_define {A} (o : object A) (k : jsstring) (v : A) (k' : jsstring) :
  In k' (keys (define o k v)) <-> k' = k \/ In k' (keys o).
Proof.
  unfold define. destruct (has_own o k) eqn:E.
  - rewrite keys_overwrite. apply has_own_In in E.
    split; [now right | intros [->|H]; assumption].
  - destruct (is_array_index k).
    + apply keys_insert_index.
    + rewrite keys_app, in_app_iff. simpl. intuition congruence.
Qed.

Lemma property_order_snoc (l : list jsstring) (k : jsstring) :
  property_order l -> Forall (fun a => precedes a k) l ->
  property_order (l ++ [k]).
Proof.
  unfold property_order. induction 1 as [|a l Ha Hl IH]; intros Hk; simpl.
  - constructor; constructor.
  - inversion Hk; subst. constructor; [|now apply IH].
    apply Forall_app. split; [exact Ha | now constructor].
Qed.

Lemma insert_index_property_order {A} (o : object A) (k : jsstring) (v : A) :
  is_array_index k = true -> ~ In k (keys o) ->
  property_order (keys o) -> property_order (keys (insert_index o k v)).
Proof.
  intros Hk. unfold property_order.
  induction o as [|[k' v'] o IH]; simpl; intros Hout Hord.
  - constructor; constructor.
  - inversion Hord as [|? ? Hk' Hrest]; subst.
    destruct (is_array_index k') eqn:Ek'; simpl.
    + destruct (N.ltb_spec (index_value k') (index_value k)) as [Hlt|Hge]; simpl.
      * constructor; [|apply IH; tauto].
        apply Forall_forall. intros b Hb.
        apply keys_insert_index in Hb as [->|Hb].
        -- split; [|now split]. intros ->. lia.
        -- rewrite Forall_forall in Hk'. now apply Hk'.
      * constructor; [|exact Hord].
        assert (Hlt : (index_value k < index_value k')%N).
        { destruct (N.eq_dec (index_value k) (index_value k')) as [E|E]; [|lia].
          exfalso. apply Hout. left. symmetry.
          now apply array_index_injective. }
        constructor.
        -- split; [intros ->; apply Hout; now left | now split].
        -- apply Forall_forall. intros b Hb. split.
           ++ intros ->. apply Hout. now right.
           ++ intros Eb. split; [exact Hk|].
              rewrite Forall_forall in Hk'.
              destruct (Hk' b Hb) as [_ H]. destruct (H Eb). lia.
    + constructor; [|exact Hord].
      apply Forall_forall. intros b Hb. split.
      * intros ->. apply Hout. exact Hb.
      * intros Eb. exfalso. destruct Hb as [<-|Hb]; [congruence|].
        rewrite Forall_forall in Hk'.
        destruct (Hk' b Hb) as [_ H]. destruct (H Eb). congruence.
Qed.

(** Creating a property keeps the keys in property order. *)
Lemma define_property_order {A} (o : object A) (k : jsstring) (v : A) :
  property_order (keys o) -> property_order (keys (define o k v)).
Proof.
  intros Hord. unfold define. destruct (has_own o k) eqn:E.
  - now rewrite keys_overwrite.
  - assert (Hout : ~ In k (keys o)).
    { intros H. apply has_own_In in H. congruence. }
    destruct (is_array_index k) eqn:Ek.
    + now apply insert_index_property_order.
    + rewrite keys_app. apply property_order_snoc; [exact Hord|].
      apply Forall_forall. intros a Ha. split.
      * intros ->. contradiction.
      * simpl. intros H. congruence.
Qed.

(** ** Sets of keys *)

Lemma existsb_str_eqb (k : jsstring) (s : list jsstring) :
  existsb (str_eqb k) s = true <-> In k s.
Proof.
  rewrite existsb_exists. split.
  - intros (x & Hx & E). apply str_eqb_eq in E. now subst.
  - intros H. exists k. split; [exact H | apply str_eqb_refl].
Qed.

Lemma Set_add_old (s : list jsstring) (k : jsstring) :
  In k s -> Set_add s k = s.
Proof. intros H. unfold Set_add. apply existsb_str_eqb in H. now rewrite H. Qed.

Lemma Set_add_new (s : list jsstring) (k : jsstring) :
  ~ In k s -> Set_add s k = s ++ [k].
Proof.
  intros H. unfold Set_add.
  destruct (existsb (str_eqb k) s) eqn:E; [|reflexivity].
  apply existsb_str_eqb in E. contradiction.
Qed.

Lemma Set_add_all_old (l s : list jsstring) :
  incl l s -> fold_left Set_add l s = s.
Proof.
  induction l as [|k l IH]; simpl; intros H; [reflexivity|].
  rewrite Set_add_old by (apply H; now left).
  apply IH. intros x Hx. apply H. now right.
Qed.

Lemma Set_add_all_new (l s : list jsstring) :
  NoDup (s ++ l) -> fold_left Set_add l s = s ++ l.
Proof.
  revert s; induction l as [|k l IH]; simpl; intros s H.
  - now rewrite app_nil_r.
  - rewrite Set_add_new by (apply NoDup_remove_2 in H; intros Hin; apply H;
                            apply in_or_app; now left).
    rewrite IH; rewrite <- app_assoc; [reflexivity | exact H].
Qed.

Lemma filter_filter {A} (f g : A -> bool) (l : list A) :
  filter f (filter g l) = filter (fun x => g x && f x) l.
Proof.
  induction l as [|x l IH]; simpl; [reflexivity|].
  destruct (g x); simpl; [destruct (f x)|]; now rewrite IH.
Qed.

Lemma Set_add_all_first_occurrences (l s : list jsstring) :
  fold_left Set_add l s
  = s ++ filter (fun k => negb (existsb (str_eqb k) s)) (first_occurrences l).
Proof.
  revert s; induction l as [|k l IH]; intros s; simpl.
  - now rewrite app_nil_r.
  - rewrite IH. unfold Set_add.
    destruct (existsb (str_eqb k) s) eqn:E; simpl.
    + f_equal. rewrite filter_filter. apply filter_ext_in. intros x _.
      destruct (str_eqb x k) eqn:Ex; simpl; [|reflexivity].
      apply str_eqb_eq in Ex. subst x. now rewrite E.
    + rewrite <- app_assoc. simpl. do 2 f_equal.
      rewrite filter_filter. apply filter_ext_in. intros x _.
      rewrite existsb_app. simpl. rewrite orb_false_r, negb_orb.
      apply andb_comm.
Qed.

(** [Array.from(new Set(l))] lists the elements of [l] in first-occurrence
    order. *)
Lemma Set_from_first_occurrences (l : list jsstring) :
  Set_from l = first_occurrences l.
Proof.
  unfold Set_from. rewrite Set_add_all_first_occurrences. simpl.
  induction (first_occurrences l) as [|x r IH]; simpl; congruence.
Qed.

(** ** parseCSV *)

(** The reduce over headers in property order, none of them [__proto__],
    pairs each header with its value, in header order. *)
Lemma reduce_headers_combine (headers : list jsstring) :
  forall (values done : list jsstring) (obj : object jsstring),
    length values = length headers ->
    property_order (keys obj ++ headers) ->
    ~ In (js "__proto__") headers ->
    reduce_headers (done ++ values) headers (length done) obj
    = obj ++ combine headers values.
Proof.
  induction headers as [|h headers IH]; intros values done obj Hlen Hord Hproto.
  - simpl. now rewrite app_nil_r.
  - destruct values as [|v values]; [discriminate|].
    simpl. rewrite app_nth2, Nat.sub_diag by lia. simpl.
    unfold assign.
    replace (str_eqb h (js "__proto__")) with false
      by (symmetry; apply str_eqb_neq; intros ->; apply Hproto; now left).
    rewrite define_last by (now apply property_order_app_head with (l2 := headers)).
    replace (done ++ v :: values) with ((done ++ [v]) ++ values)
      by (now rewrite <- app_assoc).
    replace (S (length done)) with (length (done ++ [v]))
      by (rewrite length_app; simpl; lia).
    rewrite IH.
    + now rewrite <- app_assoc.
    + simpl in Hlen. congruence.
    + rewrite keys_app, <- app_assoc. exact Hord.
    + intros Hin. apply Hproto. now right.
Qed.

Lemma keys_assign {A} (o : object A) (k : jsstring) (v : A) (k' : jsstring) :
  In k' (keys (assign o k v))
  <-> In k' (keys o) \/ (k' = k /\ k <> js "__proto__").
Proof.
  unfold assign. destruct (str_eqb k (js "__proto__")) eqn:E.
  - apply str_eqb_eq in E. intuition congruence.
  - apply str_eqb_neq in E. rewrite keys_define. intuition congruence.
Qed.

Lemma assign_property_order {A} (o : object A) (k : jsstring) (v : A) :
  property_order (keys o) -> property_order (keys (assign o k v)).
Proof.
  intros H. unfold assign. destruct (str_eqb k (js "__proto__")); [exact H|].
  now apply define_property_order.
Qed.

(** Whatever the headers, the record built by the reduce has its keys in
    property order, and they are the headers other than [__proto__]. *)
Lemma reduce_headers_keys (values headers : list jsstring) :
  forall (i : nat) (obj : object jsstring) (k : jsstring),
    In k (keys (reduce_headers values headers i obj))
    <-> In k (keys obj) \/ (In k headers /\ k <> js "__proto__").
Proof.
  induction headers as [|h headers IH]; intros i obj k; simpl.
  - tauto.
  - rewrite IH, keys_assign. intuition congruence.
Qed.

Lemma reduce_headers_property_order (values headers : list jsstring) :
  forall (i : nat) (obj : object jsstring),
    property_order (keys obj) ->
    property_order (keys (reduce_headers values headers i obj)).
Proof.
  induction headers as [|h headers IH]; intros i obj H; simpl; [exact H|].
  apply IH. now apply assign_property_order.
Qed.

Lemma parse_row_ok (headers : list jsstring) (line : jsstring) (index : nat) :
  length (csv_fields line) = length headers ->
  parse_row headers line index
  = Ok (reduce_headers (csv_fields line) headers 0 []).
Proof.
  intros H. unfold parse_row. fold (csv_fields line).
  rewrite H, Nat.eqb_refl. reflexivity.
Qed.

Lemma parse_row_bad (headers : list jsstring) (line : jsstring) (index : nat) :
  length (csv_fields line) <> length headers ->
  parse_row headers line index
  = Throw (row_error index (length (csv_fields line)) (length headers)).
Proof.
  intros H. unfold parse_row. fold (csv_fields line).
  apply Nat.eqb_neq in H. now rewrite H.
Qed.

(** When every line has the width of the header, the map over the lines
    returns one record per line. *)
Lemma map_rows_ok (headers : list jsstring) (rows : list jsstring) :
  forall index,
    Forall (fun line => length (csv_fields line) = length headers) rows ->
    map_rows headers rows index
    = Ok (map (fun line => reduce_headers (csv_fields line) headers 0 []) rows).
Proof.
  induction rows as [|line rows IH]; intros index H; simpl; [reflexivity|].
  inversion H; subst.
  rewrite parse_row_ok by assumption. simpl.
  rewrite IH by assumption. reflexivity.
Qed.

(** The map over the lines stops at the first line of another width. *)
Lemma map_rows_first_bad (headers : list jsstring) (rows : list jsstring) :
  forall index k line,
    nth_error rows k = Some line ->
    length (csv_fields line) <> length headers ->
    (forall j line', j < k -> nth_error rows j = Some line' ->
       length (csv_fields line') = length headers) ->
    map_rows headers rows index
    = Throw (row_error (index + k) (length (csv_fields line)) (length headers)).
Proof.
  induction rows as [|l rows IH]; intros index k line Hnth Hbad Hgood.
  - destruct k; discriminate.
  - destruct k as [|k]; simpl in *.
    + injection Hnth as ->. rewrite parse_row_bad by assumption.
      simpl. now rewrite Nat.add_0_r.
    + rewrite parse_row_ok by (apply (Hgood 0 l); [lia | reflexivity]).
      simpl. rewrite (IH (S index) k line Hnth Hbad).
      * simpl. now rewrite Nat.add_succ_r.
      * intros j line' Hj Hj'. apply (Hgood (S j) line'); [lia | exact Hj'].
Qed.

(** The map over the lines throws as soon as some line has another
    width. *)
Lemma map_rows_some_bad (headers : list jsstring) (rows : list jsstring) :
  forall index,
    Exists (fun line => length (csv_fields line) <> length headers) rows ->
    exists msg, map_rows headers rows index = Throw msg.
Proof.
  induction rows as [|l rows IH]; intros index H; [inversion H|]. simpl.
  destruct (Nat.eq_dec (length (csv_fields l)) (length headers)) as [E|E].
  - rewrite parse_row_ok by exact E. simpl.
    inversion H as [? ? Hbad|? ? Hrest]; subst; [contradiction|].
    destruct (IH (S index) Hrest) as [msg ->]. now exists msg.
  - rewrite parse_row_bad by exact E. simpl. eauto.
Qed.

Lemma existsb_is_empty (headers : list jsstring) :
  Forall (fun h => h <> []) headers -> existsb is_empty headers = false.
Proof.
  induction 1 as [|h headers Hh _ IH]; simpl; [reflexivity|].
  rewrite IH. destruct h; [congruence | reflexivity].
Qed.

(** [parseCSV] on a text with a header line, all header fields non-empty,
    and at least one more line. *)
Lemma parseCSV_rows (csv header_line : jsstring) (rows : list jsstring) :
  csv_lines csv = header_line :: rows ->
  rows <> [] ->
  Forall (fun h => h <> []) (csv_fields header_line) ->
  parseCSV csv = map_rows (csv_fields header_line) rows 0.
Proof.
  unfold csv_lines, parseCSV. intros -> Hrows Hheaders.
  destruct rows as [|line rows]; [congruence|]. simpl.
  fold (csv_fields header_line).
  now rewrite existsb_is_empty.
Qed.

(** A well-formed CSV text is parsed into one record per data line. *)
Lemma parseCSV_valid (csv : jsstring) (headers rows : list jsstring) :
  valid_csv csv headers rows ->
  parseCSV csv
  = Ok (map (fun line => reduce_headers (csv_fields line) headers 0 []) rows).
Proof.
  intros (header_line & Hlines & Hne & Hfields & Hnonempty & Hwidth).
  rewrite (parseCSV_rows csv header_line rows Hlines Hne)
    by (now rewrite Hfields).
  rewrite Hfields. now apply map_rows_ok.
Qed.

(** With header fields in property order and none of them [__proto__],
    each record pairs the header fields with the values of its line. *)
Lemma parseCSV_valid_combine (csv : jsstring) (headers rows : list jsstring) :
  valid_csv csv headers rows ->
  property_order headers ->
  ~ In (js "__proto__") headers ->
  parseCSV csv
  = Ok (map (fun line => combine headers (csv_fields line)) rows).
Proof.
  intros Hvalid Hord Hproto. rewrite (parseCSV_valid csv headers rows Hvalid).
  destruct Hvalid as (header_line & _ & _ & _ & _ & Hwidth).
  f_equal. apply map_ext_in. intros line Hin.
  rewrite Forall_forall in Hwidth.
  apply (reduce_headers_combine headers (csv_fields line) [] []); auto.
Qed.

(** C3, amended: a well-formed CSV text with header fields h1..hn and m
    data lines is parsed into exactly m records; the keys of every record
    are the header fields other than [__proto__], each once, in property
    order (array indices first and ascending); when the header fields
    themselves are in property order and none is [__proto__], every
    record has the keys h1..hn in header order, bound to the values of
    its line. *)
Theorem parseCSV_records (csv : jsstring) (headers rows : list jsstring) :
  valid_csv csv headers rows ->
  exists records,
    parseCSV csv = Ok records
    /\ length records = length rows
    /\ Forall (fun record =>
                 property_order (keys record)
                 /\ forall k, In k (keys record)
                              <-> In k headers /\ k <> js "__proto__") records
    /\ (property_order headers -> ~ In (js "__proto__") headers ->
        Forall (fun record => keys record = headers) records
        /\ records = map (fun line => combine headers (csv_fields line)) rows).
Proof.
  intros Hvalid. pose proof (parseCSV_valid csv headers rows Hvalid) as Hparse.
  eexists. split; [exact Hparse|]. split; [apply length_map|]. split.
  - apply Forall_map, Forall_forall. intros line _. split.
    + apply reduce_headers_property_order. constructor.
    + intros k. rewrite reduce_headers_keys. simpl. tauto.
  - intros Hord Hproto.
    pose proof (parseCSV_valid_combine csv headers rows Hvalid Hord Hproto) as E.
    rewrite Hparse in E. injection E as E. rewrite E. split; [|reflexivity].
    destruct Hvalid as (header_line & _ & _ & _ & _ & Hwidth).
    apply Forall_forall. intros record Hin.
    apply in_map_iff in Hin as (line & <- & Hline).
    apply keys_combine. rewrite Forall_forall in Hwidth. auto.
Qed.

(** C4, amended: when data row [r] (counted from 1) has a number of
    values that differs from the number of header fields, [parseCSV]
    throws; when moreover no header field is empty and row [r] is the
    first such row, the message names line [r + 1] and gives the number of
    values found and the number expected. *)
Theorem parseCSV_row_width (csv header_line : jsstring) (rows : list jsstring)
    (r : nat) (line : jsstring) :
  csv_lines csv = header_line :: rows ->
  1 <= r ->
  nth_error rows (r - 1) = Some line ->
  length (csv_fields line) <> length (csv_fields header_line) ->
  (exists msg, parseCSV csv = Throw msg)
  /\ (Forall (fun h => h <> []) (csv_fields header_line) ->
      (forall j line', j < r - 1 -> nth_error rows j = Some line' ->
         length (csv_fields line') = length (csv_fields header_line)) ->
      parseCSV csv
      = Throw (js "Row " ++ decimal (r + 1)
               ++ js " has " ++ decimal (length (csv_fields line))
               ++ js " values but should have "
               ++ decimal (length (csv_fields header_line))
               ++ js " (matching headers)")).
Proof.
  intros Hlines Hr Hnth Hbad.
  assert (Hne : rows <> []) by (intros ->; destruct (r - 1); discriminate).
  split.
  - unfold parseCSV. fold (csv_lines csv). rewrite Hlines.
    destruct rows as [|l rows']; [congruence|].
    change (length (header_line :: l :: rows') <? 2) with false. cbv iota.
    change (nth 0 (header_line :: l :: rows') []) with header_line.
    fold (csv_fields header_line).
    destruct (existsb is_empty (csv_fields header_line)); [eauto|].
    apply map_rows_some_bad. apply Exists_exists. exists line.
    split; [now apply nth_error_In with (r - 1) | exact Hbad].
  - intros Hheaders Hgood.
    rewrite (parseCSV_rows csv header_line rows Hlines Hne Hheaders).
    rewrite (map_rows_first_bad _ rows 0 (r - 1) line Hnth Hbad Hgood).
    unfold row_error. replace (0 + (r - 1) + 2) with (r + 1) by lia.
    reflexivity.
Qed.

(** ** The text the serializer writes, read back *)

Lemma map_fixed {A} (f : A -> A) (l : list A) :
  Forall (fun x => f x = x) l -> map f l = l.
Proof. induction 1; simpl; congruence. Qed.

Lemma csv_fields_join (fs : list jsstring) :
  fs <> [] ->
  Forall (fun f => ~ In COMMA f /\ no_outer_space f) fs ->
  csv_fields (join [COMMA] fs) = fs.
Proof.
  intros Hne H. unfold csv_fields. rewrite split_join.
  - apply map_fixed. apply Forall_impl with (2 := H).
    intros f [_ Hf]. now apply trim_fixed.
  - exact Hne.
  - apply Forall_impl with (2 := H). tauto.
Qed.

Lemma is_white_space_CR (c : code_unit) : is_white_space c = false -> c <> CR.
Proof. intros H ->. discriminate. Qed.

(** A row of fields without newline and without outer space is one line. *)
Lemma joined_row_is_line (fs : list jsstring) :
  Forall (fun f => ~ In LF f /\ no_outer_space f) fs ->
  ~ In LF (join [COMMA] fs) /\ last (join [COMMA] fs) 0%N <> CR.
Proof.
  intros H. split.
  - intros Hin. apply In_join in Hin as [E|(f & Hf & Hc)]; [discriminate|].
    rewrite Forall_forall in H. now destruct (H f Hf).
  - apply is_white_space_CR.
    apply (last_join COMMA fs (fun c => is_white_space c = false));
      try reflexivity.
    apply Forall_impl with (2 := H). now intros f [_ [_ Hend]].
Qed.

Lemma join_nonempty (sep : code_unit) (ls : list jsstring) :
  last ls [] <> [] -> join [sep] ls <> [].
Proof.
  destruct ls as [|x [|y ls]]; simpl; try congruence.
  intros _ E. apply app_eq_nil in E as [_ E]. discriminate.
Qed.

Lemma last_join_last (sep : code_unit) (ls : list jsstring) (d : code_unit) :
  last ls [] <> [] -> last (join [sep] ls) d = last (last ls []) d.
Proof.
  induction ls as [|x ls IH]; [simpl; congruence|].
  destruct ls as [|y ls]; [reflexivity|]. intros H.
  rewrite join_cons2.
  change (x ++ [sep] ++ join [sep] (y :: ls))
    with (x ++ sep :: join [sep] (y :: ls)).
  rewrite last_app_cons.
  change (last (x :: y :: ls) []) with (last (y :: ls) []) in *.
  rewrite <- (IH H).
  pose proof (join_nonempty sep (y :: ls) H) as Hj.
  destruct (join [sep] (y :: ls)); [congruence | reflexivity].
Qed.

Lemma last_map {A B} (f : A -> B) (l : list A) (d : A) :
  last (map f l) (f d) = f (last l d).
Proof.
  induction l as [|x l IH]; [reflexivity|].
  destruct l as [|y l]; [reflexivity|]. exact IH.
Qed.

Lemma last_map_join (sep : jsstring) (table : list (list jsstring)) :
  last (map (join sep) table) [] = join sep (last table []).
Proof. exact (last_map (join sep) table []). Qed.

Lemma joined_row_nonempty (fs : list jsstring) :
  2 <= length fs \/ (fs <> [] /\ Forall (fun f => f <> []) fs) ->
  join [COMMA] fs <> [].
Proof.
  destruct fs as [|x [|y fs]]; simpl.
  - intros [H|[H _]]; [lia | congruence].
  - intros [H|[_ H]]; [lia|]. now inversion H.
  - intros _ E. apply app_eq_nil in E as [_ E]. discriminate.
Qed.

(** The text of a table of plain fields under plain keys is a
    well-formed CSV text with those header fields, and each of its data
    lines splits into the fields it was joined from. *)
Lemma csv_text_valid (headers : list jsstring) (table : list (list jsstring)) :
  headers <> [] ->
  Forall plain_key headers ->
  table <> [] ->
  Forall (fun fs => length fs = length headers /\ Forall plain_field fs) table ->
  2 <= length headers \/ Forall (fun f => f <> []) (last table []) ->
  valid_csv (csv_text headers table) headers (map (join [COMMA]) table)
  /\ Forall (fun fs => csv_fields (join [COMMA] fs) = fs) table.
Proof.
  intros Hh Hkeys Ht Htable Hlast.
  assert (Hrows : Forall (fun fs => csv_fields (join [COMMA] fs) = fs) table).
  { apply Forall_impl with (2 := Htable). intros fs [Hlen Hfs].
    apply csv_fields_join.
    - intros ->. destruct headers; [congruence | discriminate].
    - apply Forall_impl with (2 := Hfs). unfold plain_field. tauto. }
  split; [|exact Hrows].
  assert (Hheader : join [COMMA] headers <> []).
  { destruct headers as [|k [|k' ks]]; [congruence| |].
    - simpl. inversion Hkeys as [|? ? Hk _]; subst. now destruct Hk.
    - rewrite join_cons2. intros E. apply app_eq_nil in E as [_ E]. discriminate. }
  assert (Hlastrow : last (map (join [COMMA]) table) [] <> []).
  { rewrite last_map_join. apply joined_row_nonempty.
    assert (Hin : In (last table []) table).
    { destruct (exists_last Ht) as (t & fs & ->). rewrite last_last.
      apply in_or_app. right. now left. }
    rewrite Forall_forall in Htable. destruct (Htable _ Hin) as [Hlen _].
    destruct Hlast as [H|H]; [left; lia|right].
    split; [|exact H]. intros E. rewrite E in Hlen.
    destruct headers; [congruence | discriminate]. }
  assert (Hspace : no_outer_space (csv_text headers table)).
  { unfold csv_text. split.
    - rewrite hd_join by exact Hheader.
      destruct headers as [|k ks]; [congruence|].
      inversion Hkeys as [|? ? Hk _]; subst.
      destruct Hk as (Hk & _ & _ & [Hstart _] & _).
      now rewrite hd_join.
    - rewrite last_join_last.
      + destruct table as [|fs table]; [congruence|].
        change (last (join [COMMA] headers :: map (join [COMMA]) (fs :: table)) [])
          with (last (map (join [COMMA]) (fs :: table)) []).
        rewrite last_map_join.
        apply (last_join COMMA _ (fun c => is_white_space c = false));
          try reflexivity.
        assert (Hin : In (last (fs :: table) []) (fs :: table)).
        { destruct (exists_last Ht) as (t & fs' & ->). rewrite last_last.
          apply in_or_app. right. now left. }
        rewrite Forall_forall in Htable. destruct (Htable _ Hin) as [_ Hfs].
        apply Forall_impl with (2 := Hfs). unfold plain_field, no_outer_space.
        tauto.
      + destruct table as [|fs table]; [congruence|]. exact Hlastrow. }
  exists (join [COMMA] headers). repeat split.
  - unfold csv_lines. rewrite (trim_fixed _ Hspace). unfold csv_text.
    apply split_lines_join; [discriminate|].
    constructor.
    + apply joined_row_is_line. apply Forall_impl with (2 := Hkeys).
      unfold plain_key. tauto.
    + apply Forall_map. apply Forall_impl with (2 := Htable).
      intros fs [_ Hfs]. apply joined_row_is_line.
      apply Forall_impl with (2 := Hfs). unfold plain_field. tauto.
  - destruct table; [congruence | discriminate].
  - apply csv_fields_join; [exact Hh|].
    apply Forall_impl with (2 := Hkeys). unfold plain_key. tauto.
  - apply Forall_impl with (2 := Hkeys). unfold plain_key. tauto.
  - apply Forall_map. rewrite Forall_forall in *. intros fs Hin.
    rewrite (Hrows fs Hin). now destruct (Htable fs Hin).
Qed.

(** ** Escaping of one field *)

Lemma has_special_spec (s : jsstring) :
  has_special s = true <-> In COMMA s \/ In DQUOTE s \/ In LF s.
Proof.
  unfold has_special. rewrite !orb_true_iff, !includes_unit. tauto.
Qed.

Lemma has_special_false (s : jsstring) :
  has_special s = false <-> ~ In COMMA s /\ ~ In DQUOTE s /\ ~ In LF s.
Proof.
  unfold has_special. rewrite !orb_false_iff, !includes_unit_false. tauto.
Qed.

(** Every double quote is doubled and nothing else changes. *)
Lemma double_quotes_cons (c : code_unit) (s : jsstring) :
  double_quotes (c :: s)
  = if N.eq_dec c DQUOTE then DQUOTE :: DQUOTE :: double_quotes s
    else c :: double_quotes s.
Proof.
  unfold double_quotes. simpl.
  destruct (N.eq_dec c DQUOTE) as [->|Hne]; [reflexivity|].
  apply N.eqb_neq in Hne. now rewrite Hne.
Qed.

(** ** parseCSV on short inputs *)

(** C5: an input that, once trimmed and split into lines, has fewer than
    two lines makes [parseCSV] throw the error about the missing header or
    data row. *)
Theorem parseCSV_too_few_lines (csv : jsstring) :
  length (csv_lines csv) < 2 -> parseCSV csv = Throw too_few_lines.
Proof.
  unfold csv_lines, parseCSV. intros H.
  apply Nat.ltb_lt in H. now rewrite H.
Qed.

(** In particular a text that has no LF once trimmed is rejected. *)
Lemma parseCSV_single_line (csv : jsstring) :
  ~ In LF (trim csv) -> parseCSV csv = Throw too_few_lines.
Proof.
  intros H. unfold parseCSV, split_lines.
  now rewrite (line_pieces_whole _ H).
Qed.

(** ** parseJSON *)

Section ParseJSONProperties.

Variable number : Type.
Variable JSON_parse : jsstring -> result (value number).

Local Abbreviation parseJSON' := (Converter.parseJSON number JSON_parse).

Lemma is_object_item_spec (v : value number) :
  is_object_item number v = true <-> non_null_object v.
Proof.
  destruct v; simpl; split; intros H;
    try discriminate H; try contradiction; try exact I; reflexivity.
Qed.

Lemma forallb_is_object_item (items : list (value number)) :
  forallb (is_object_item number) items = true <-> Forall non_null_object items.
Proof.
  rewrite forallb_forall, Forall_forall.
  split; intros H x Hx; apply is_object_item_spec; auto.
Qed.

(** A non-empty array of non-null objects passes the three checks. *)
Lemma parseJSON_objects (json : jsstring) (items : list (value number)) :
  JSON_parse json = Ok (VArr items) ->
  items <> [] ->
  Forall non_null_object items ->
  parseJSON' json = Ok items.
Proof.
  intros Hparse Hne Hall. unfold parseJSON. rewrite Hparse. simpl.
  destruct items as [|x items]; [congruence|]. simpl length. simpl Nat.eqb.
  apply forallb_is_object_item in Hall. now rewrite Hall.
Qed.

(** C6: on a text that [JSON.parse] accepts, [parseJSON] throws when the
    parsed value is not an array, when it is the empty array, and when the
    array has a null or scalar element, each with its own message; on a
    non-empty array of non-null objects it returns the array's elements. *)
Theorem parseJSON_validation (json : jsstring) (data : value number) :
  JSON_parse json = Ok data ->
  (isArray data = false -> parseJSON' json = Throw not_an_array)
  /\ (data = VArr [] -> parseJSON' json = Throw empty_array)
  /\ (forall items, data = VArr items ->
        Exists null_or_scalar items -> parseJSON' json = Throw not_objects)
  /\ (forall items, data = VArr items -> items <> [] ->
        Forall non_null_object items -> parseJSON' json = Ok items).
Proof.
  intros Hparse.
  refine (conj _ (conj _ (conj _ _))).
  - unfold parseJSON. rewrite Hparse. simpl.
    destruct data; simpl; congruence.
  - intros ->. unfold parseJSON. now rewrite Hparse.
  - intros items -> Hex. unfold parseJSON. rewrite Hparse. simpl.
    destruct items as [|x items]; [inversion Hex|]. simpl length. simpl Nat.eqb.
    destruct (forallb (is_object_item number) (x :: items)) eqn:E; [|reflexivity].
    exfalso. apply forallb_is_object_item in E.
    apply Exists_exists in Hex as (y & Hy & Hbad).
    rewrite Forall_forall in E. specialize (E y Hy).
    destruct y; simpl in *; contradiction.
  - intros items -> Hne Hall. now apply parseJSON_objects.
Qed.

(** C10: a non-empty array whose elements are all arrays passes the
    validation of [parseJSON], which returns the elements as they are. *)
Theorem parseJSON_accepts_arrays (json : jsstring) (items : list (value number)) :
  JSON_parse json = Ok (VArr items) ->
  items <> [] ->
  Forall (fun item => isArray item = true) items ->
  parseJSON' json = Ok items.
Proof.
  intros Hparse Hne Hall.
  apply (parseJSON_objects json items Hparse Hne).
  apply Forall_impl with (2 := Hall).
  intros [] E; simpl in *; congruence || exact I.
Qed.

End ParseJSONProperties.

(** ** The serializer *)

Section SerializerProperties.

Variable number : Type.
Variable Number_toString : number -> jsstring.
Variable Array_prototype : list (jsstring * jsstring).

Local Abbreviation field' :=
  (Converter.field number Number_toString Array_prototype).
Local Abbreviation fields' :=
  (Converter.fields number Number_toString Array_prototype).
Local Abbreviation rows' :=
  (Converter.rows number Number_toString Array_prototype).
Local Abbreviation serializeCSV' :=
  (Converter.serializeCSV number Number_toString Array_prototype).

(** A value of the text other than null is rendered, and the rendering
    is escaped. *)
Lemma field_json (obj : value number) (header : jsstring)
    (v : value number) (s : jsstring) :
  Get Array_prototype obj header = Json v ->
  renders Number_toString v s ->
  field' obj header = Ok (escape s).
Proof.
  intros Hget [Hnull Hstr]. unfold field. rewrite Hget.
  destruct v; try congruence; now rewrite Hstr.
Qed.

(** C7: a record value that reaches the escaping (any value but null,
    which is written as the empty field before) is stringified first and
    the rendering is what is checked: when it has a comma, a double quote
    or a newline, the field is the rendering with its double quotes
    doubled, between double quotes; otherwise the field is the rendering. *)
Theorem field_escapes_rendering (obj : value number) (header : jsstring)
    (v : value number) (s : jsstring) :
  Get Array_prototype obj header = Json v ->
  v <> VNull ->
  ToString Number_toString v = Ok s ->
  (In COMMA s \/ In DQUOTE s \/ In LF s ->
     field' obj header = Ok ([DQUOTE] ++ double_quotes s ++ [DQUOTE]))
  /\ (~ In COMMA s /\ ~ In DQUOTE s /\ ~ In LF s ->
     field' obj header = Ok s).
Proof.
  intros Hget Hnull Hstr.
  rewrite (field_json obj header v s Hget (conj Hnull Hstr)).
  unfold escape. split; intros H.
  - apply has_special_spec in H. now rewrite H.
  - apply has_special_false in H. now rewrite H.
Qed.

(** *** Serializing and parsing back *)

Lemma field_rendered (props : object (value number)) (k : jsstring)
    (v : value number) (s : jsstring) :
  own props k = Some v ->
  renders Number_toString v s ->
  has_special s = false ->
  field' (VObj props) k = Ok s.
Proof.
  intros Hown Hr Hs.
  rewrite (field_json (VObj props) k v s); [|simpl; now rewrite Hown|exact Hr].
  unfold escape. now rewrite Hs.
Qed.

Lemma fields_rendered (props : object (value number)) :
  NoDup (keys props) ->
  forall (ps : object (value number)) (qs : object jsstring),
    incl ps props ->
    record_renders Number_toString ps qs ->
    Forall (fun q => plain_field (snd q)) qs ->
    fields' (VObj props) (keys ps) = Ok (map snd qs).
Proof.
  intros Hnd ps qs Hincl Hr. induction Hr as [|[k v] [k' s] ps qs [_ Hv] _ IH];
    intros Hplain; [reflexivity|].
  inversion Hplain as [|? ? Hs Hplain']; subst. simpl in *.
  rewrite (field_rendered props k v s).
  - simpl. rewrite IH; [reflexivity | | assumption].
    intros x Hx. apply Hincl. now right.
  - apply own_In; [exact Hnd | apply Hincl; now left].
  - exact Hv.
  - apply has_special_false. unfold plain_field in Hs. tauto.
Qed.

Lemma record_renders_same (props : object (value number)) (o : object jsstring) :
  record_renders Number_toString props o ->
  same_up_to_rendering Number_toString props o.
Proof.
  induction 1 as [|p q ps qs [E [_ Hs]] _ IH]; constructor; [now split | exact IH].
Qed.

Lemma record_renders_keys (props : object (value number)) (o : object jsstring) :
  record_renders Number_toString props o -> keys o = keys props.
Proof.
  induction 1 as [|p q ps qs [E _] _ IH]; simpl; [reflexivity|]. congruence.
Qed.

Lemma rows_rendered (ks : list jsstring) :
  NoDup ks ->
  forall (records : list (object (value number)))
         (rendered : list (object jsstring)),
    Forall (fun props => keys props = ks) records ->
    Forall2 (record_renders Number_toString) records rendered ->
    Forall (fun o => Forall (fun q => plain_field (snd q)) o) rendered ->
    rows' ks (map VObj records)
    = Ok (map (join [COMMA]) (map (map snd) rendered)).
Proof.
  intros Hnd records rendered Hkeys Hr.
  induction Hr as [|props o records rendered Ho _ IH]; intros Hplain;
    [reflexivity|].
  inversion Hkeys as [|? ? Hk Hkeys']; subst.
  inversion Hplain as [|? ? Hp Hplain']; subst.
  simpl. unfold row.
  rewrite (fields_rendered props Hnd props o (incl_refl _) Ho Hp).
  simpl. now rewrite IH.
Qed.

Lemma unified_headers_same (ks : list jsstring)
    (records : list (object (value number))) :
  records <> [] -> NoDup ks ->
  Forall (fun props => keys props = ks) records ->
  unified_headers number (map VObj records) = ks.
Proof.
  intros Hne Hnd Hkeys. unfold unified_headers, Set_from.
  destruct records as [|props records]; [congruence|].
  inversion Hkeys as [|? ? Hk Hkeys']; subst.
  simpl. rewrite fold_left_app.
  rewrite (Set_add_all_new (keys props) []) by exact Hnd. simpl.
  apply Set_add_all_old.
  intros k Hin. apply in_flat_map in Hin as (obj & Hobj & Hk).
  apply in_map_iff in Hobj as (props' & <- & Hin').
  rewrite Forall_forall in Hkeys'. simpl in Hk. now rewrite (Hkeys' _ Hin') in Hk.
Qed.

(** C1, amended: take a non-empty list of objects that all have the same
    keys in the same order, at least one key, every key plain (not empty,
    no comma, no newline, no outer space, not [__proto__]), no value
    null, and every value rendered by [String] to a plain field (no
    comma, no double quote, no newline, no outer space); let there be two
    keys or more, or let the last object's value render to a non-empty
    string.  Then the serializer returns a text that [parseCSV] parses
    into the same objects with every value replaced by its rendering. *)
Theorem serializeCSV_parseCSV (ks : list jsstring)
    (records : list (object (value number)))
    (rendered : list (object jsstring)) :
  records <> [] ->
  ks <> [] ->
  property_order ks ->
  Forall plain_key ks ->
  Forall (fun props => keys props = ks) records ->
  Forall2 (record_renders Number_toString) records rendered ->
  Forall (fun o => Forall (fun q => plain_field (snd q)) o) rendered ->
  2 <= length ks \/ Forall (fun q => snd q <> []) (last rendered []) ->
  exists csv,
    serializeCSV' (map VObj records) = Ok csv
    /\ parseCSV csv = Ok rendered
    /\ Forall2 (same_up_to_rendering Number_toString) records rendered.
Proof.
  intros Hne Hks Hord Hplain Hkeys Hr Hfields Hlast.
  pose proof (property_order_NoDup ks Hord) as Hnd.
  assert (Hkeys' : Forall (fun o => keys o = ks) rendered).
  { clear - Hkeys Hr. induction Hr as [|props o ? ? Ho _ IH]; constructor.
    - rewrite (record_renders_keys props o Ho). now inversion Hkeys.
    - apply IH. now inversion Hkeys. }
  set (table := map (map snd) rendered).
  exists (csv_text ks table). split; [|split].
  - unfold serializeCSV. rewrite (unified_headers_same ks records Hne Hnd Hkeys).
    now rewrite (rows_rendered ks Hnd records rendered Hkeys Hr Hfields).
  - assert (Htable : Forall (fun fs => length fs = length ks
                                       /\ Forall plain_field fs) table).
    { unfold table. apply Forall_map. rewrite Forall_forall in *.
      intros o Hin. split.
      - rewrite <- (Hkeys' o Hin). unfold keys. now rewrite !length_map.
      - apply Forall_map. auto. }
    destruct (csv_text_valid ks table) as [Hvalid Hsplit]; try assumption.
    + unfold table. destruct Hr; [congruence | discriminate].
    + destruct Hlast as [H|H]; [now left|right].
      unfold table. change (@nil jsstring) with (map (@snd jsstring jsstring) []).
      rewrite last_map. now apply Forall_map.
    + rewrite (parseCSV_valid_combine _ _ _ Hvalid Hord).
      * rewrite map_map. unfold table. rewrite map_map.
        rewrite <- (map_id rendered) at 2. apply f_equal.
        apply map_ext_in. intros o Hin.
        rewrite Forall_forall in Hsplit.
        rewrite (Hsplit (map snd o)) by (apply in_map_iff; now exists o).
        rewrite Forall_forall in Hkeys'. rewrite <- (Hkeys' o Hin).
        apply combine_fst_snd.
      * intros Hin. rewrite Forall_forall in Hplain.
        destruct (Hplain _ Hin) as (_ & _ & _ & _ & Hproto). congruence.
  - apply Forall2_impl with (2 := Hr). apply record_renders_same.
Qed.

(** *** The union of the keys and the fields of absent keys *)

(** The header row lists the keys of all elements in first-occurrence
    order. *)
Lemma unified_headers_first_occurrences (jsonData : list (value number)) :
  unified_headers number jsonData
  = first_occurrences (flat_map Object_keys jsonData).
Proof. apply Set_from_first_occurrences. Qed.

(** A key bound to null is written as the empty field. *)
Lemma field_null (props : object (value number)) (k : jsstring) :
  own props k = Some VNull -> field' (VObj props) k = Ok [].
Proof. intros H. unfold field. simpl. now rewrite H. Qed.

(** A key that the object lacks and [Object.prototype] does not have is
    written as the empty field. *)
Lemma field_absent (props : object (value number)) (k : jsstring) :
  own props k = None ->
  Object_prototype_get (number := number) (js "[object Object]") k = Undefined ->
  field' (VObj props) k = Ok [].
Proof. intros H Hp. unfold field. simpl. now rewrite H, Hp. Qed.

(** A key that the object lacks and [Object.prototype] has is written as
    the rendering of the inherited property. *)
Lemma field_inherited (props : object (value number)) (k rendering : jsstring) :
  own props k = None ->
  Object_prototype_get (number := number) (js "[object Object]") k
  = Other rendering ->
  field' (VObj props) k = Ok (escape rendering).
Proof. intros H Hp. unfold field. simpl. now rewrite H, Hp. Qed.

End SerializerProperties.

(** ** convertData *)

Section ConvertDataProperties.

Variable number : Type.
Variable Number_toString : number -> jsstring.
Variable Array_prototype : list (jsstring * jsstring).
Variable JSON_parse : jsstring -> result (value number).

Local Abbreviation convertData' :=
  (Converter.convertData number Number_toString Array_prototype JSON_parse).
Local Abbreviation run_convertData' :=
  (Converter.run_convertData number Number_toString Array_prototype JSON_parse).

(** C9: in either mode, a blank input makes [convertData] report the
    request to enter data, with no details, and enter none of the parsers
    or serializers. *)
Theorem convertData_blank_input (s : State) :
  blank (input s) ->
  error (fst (run_convertData' s))
    = Some {| message := enter_data; details := None |}
  /\ snd (run_convertData' s) = [].
Proof.
  intros H. unfold run_convertData.
  rewrite (trim_blank _ H). simpl. split; reflexivity.
Qed.

(** On a blank input [convertData] sets the error and leaves the output
    as it was. *)
Lemma convertData_blank_keeps_output (s : State) :
  blank (input s) ->
  output (convertData' s) = output s
  /\ error (convertData' s) = Some {| message := enter_data; details := None |}.
Proof.
  intros H. unfold convertData, run_convertData.
  rewrite (trim_blank _ H). simpl. split; reflexivity.
Qed.

(** On an input that is not blank, [convertData] ends with an error and
    an empty output, or with no error. *)
Lemma convertData_exclusive (s : State) :
  trim (input s) <> [] ->
  (error (convertData' s) <> None /\ output (convertData' s) = [])
  \/ error (convertData' s) = None.
Proof.
  intros H. unfold convertData, run_convertData.
  destruct (trim (input s)) as [|c r]; [congruence|]. simpl.
  destruct (mode s).
  - destruct (parseCSV (input s)); simpl; [now right | left].
    split; [discriminate | reflexivity].
  - destruct (parseJSON number JSON_parse (input s)) as [jsonData|msg]; simpl.
    + destruct (serializeCSV number Number_toString Array_prototype jsonData);
        simpl; [now right | left]; split; [discriminate | reflexivity].
    + left. split; [discriminate | reflexivity].
Qed.

End ConvertDataProperties.

(** * Further properties of the component *)

(** ** What trimming and splitting leave *)

Lemma In_trimStart (c : code_unit) (s : jsstring) :
  In c (trimStart s) -> In c s.
Proof.
  induction s as [|d s IH]; simpl; [tauto|].
  destruct (is_white_space d); [right; now apply IH | tauto].
Qed.

Lemma In_trim (c : code_unit) (s : jsstring) : In c (trim s) -> In c s.
Proof.
  unfold trim, trimEnd. intros H.
  apply In_trimStart. apply in_rev. apply In_trimStart. now apply in_rev in H.
Qed.

Lemma trimStart_head (s : jsstring) :
  is_white_space (hd 0%N (trimStart s)) = false.
Proof.
  induction s as [|c s IH]; simpl; [reflexivity|].
  destruct (is_white_space c) eqn:E; [exact IH | exact E].
Qed.

Lemma last_rev (t : jsstring) (d : code_unit) : last (rev t) d = hd d t.
Proof.
  destruct t as [|c t]; [reflexivity|]. simpl. apply last_last.
Qed.

Lemma trimEnd_last (s : jsstring) :
  is_white_space (last (trimEnd s) 0%N) = false.
Proof. unfold trimEnd. rewrite last_rev. apply trimStart_head. Qed.

Lemma trimStart_snoc (x : jsstring) (c : code_unit) :
  is_white_space c = false -> trimStart (x ++ [c]) = trimStart x ++ [c].
Proof.
  intros Hc. induction x as [|d x IH]; simpl; [now rewrite Hc|].
  destruct (is_white_space d); [exact IH | reflexivity].
Qed.

Lemma trimEnd_head (s : jsstring) :
  is_white_space (hd 0%N s) = false ->
  is_white_space (hd 0%N (trimEnd s)) = false.
Proof.
  destruct s as [|c r]; [reflexivity|]. simpl. intros Hc.
  unfold trimEnd. simpl rev. rewrite (trimStart_snoc _ _ Hc).
  rewrite rev_unit. exact Hc.
Qed.

(** A trimmed string has no outer space. *)
Lemma trim_no_outer_space (s : jsstring) : no_outer_space (trim s).
Proof.
  split.
  - unfold trim. apply trimEnd_head, trimStart_head.
  - apply trimEnd_last.
Qed.

Lemma trimStart_app_blank (pre s : jsstring) :
  blank pre -> trimStart (pre ++ s) = trimStart s.
Proof.
  induction 1 as [|c pre Hc _ IH]; simpl; [reflexivity|]. now rewrite Hc.
Qed.

Lemma blank_rev (s : jsstring) : blank s -> blank (rev s).
Proof. unfold blank. apply Forall_rev. Qed.

Lemma trimEnd_app_blank (s post : jsstring) :
  blank post -> trimEnd (s ++ post) = trimEnd s.
Proof.
  intros H. unfold trimEnd. rewrite rev_app_distr.
  now rewrite (trimStart_app_blank _ _ (blank_rev _ H)).
Qed.

Lemma trimStart_app (s post : jsstring) :
  trimStart s <> [] -> trimStart (s ++ post) = trimStart s ++ post.
Proof.
  induction s as [|c s IH]; simpl; [congruence|].
  destruct (is_white_space c); [exact IH | reflexivity].
Qed.

Lemma trimStart_nil_blank (s : jsstring) : trimStart s = [] -> blank s.
Proof.
  induction s as [|c s IH]; simpl; [constructor|].
  destruct (is_white_space c) eqn:E; [|discriminate].
  intros H. constructor; [exact E | now apply IH].
Qed.

(** White space around a text does not change what it is trimmed to. *)
Lemma trim_app_blank (pre s post : jsstring) :
  blank pre -> blank post -> trim (pre ++ s ++ post) = trim s.
Proof.
  intros Hpre Hpost. unfold trim. rewrite (trimStart_app_blank _ _ Hpre).
  destruct (trimStart s) as [|c r] eqn:E.
  - apply trimStart_nil_blank in E.
    assert (Hall : blank (s ++ post)) by (apply Forall_app; now split).
    now rewrite (trimStart_blank _ Hall).
  - rewrite trimStart_app by congruence. rewrite E.
    now apply trimEnd_app_blank.
Qed.

Lemma split_pieces_no_sep (sep : code_unit) (s : jsstring) :
  ~ In sep (fst (split_pieces sep s))
  /\ Forall (fun f => ~ In sep f) (snd (split_pieces sep s)).
Proof.
  induction s as [|c s [IH1 IH2]]; simpl; [split; [tauto | constructor]|].
  destruct (split_pieces sep s) as [f fs]. simpl in *.
  destruct (N.eqb_spec c sep) as [->|Hne]; simpl.
  - split; [tauto | now constructor].
  - split; [|exact IH2]. intros [E|H]; [congruence | tauto].
Qed.

(** No piece of a split holds the separator. *)
Lemma split_no_sep (sep : code_unit) (s : jsstring) :
  Forall (fun f => ~ In sep f) (split sep s).
Proof.
  unfold split. destruct (split_pieces_no_sep sep s) as [H1 H2].
  destruct (split_pieces sep s). now constructor.
Qed.

Lemma In_split_pieces (sep c : code_unit) (s : jsstring) :
  (In c (fst (split_pieces sep s)) -> In c s)
  /\ Forall (fun f => In c f -> In c s) (snd (split_pieces sep s)).
Proof.
  induction s as [|d s [IH1 IH2]]; simpl; [split; [tauto | constructor]|].
  destruct (split_pieces sep s) as [f fs]. simpl in *.
  assert (Hfs : Forall (fun f0 => In c f0 -> d = c \/ In c s) fs).
  { apply Forall_impl with (2 := IH2). tauto. }
  destruct (d =? sep)%N; simpl.
  - split; [tauto|]. constructor; [tauto | exact Hfs].
  - split; [|exact Hfs]. intros [E|H]; [now left | right; now apply IH1].
Qed.

(** Every unit of a piece of a split is a unit of the text. *)
Lemma In_split (sep c : code_unit) (s f : jsstring) :
  In f (split sep s) -> In c f -> In c s.
Proof.
  unfold split. destruct (In_split_pieces sep c s) as [H1 H2].
  destruct (split_pieces sep s) as [f0 fs]. simpl in *.
  intros [<-|Hin]; [exact H1|]. rewrite Forall_forall in H2. now apply H2.
Qed.

Lemma line_pieces_no_LF (s : jsstring) :
  ~ In LF (fst (line_pieces s))
  /\ Forall (fun l => ~ In LF l) (snd (line_pieces s)).
Proof.
  induction s as [|c s [IH1 IH2]]; simpl; [split; [tauto | constructor]|].
  destruct (line_pieces s) as [f fs]. simpl in *.
  destruct (N.eqb_spec c LF) as [->|Hne]; simpl.
  - split; [tauto | now constructor].
  - destruct ((c =? CR)%N && head_is LF s); simpl; [now split|].
    split; [|exact IH2]. intros [E|H]; [congruence | tauto].
Qed.

(** No line of a text holds a LF. *)
Lemma split_lines_no_LF (s : jsstring) :
  Forall (fun l => ~ In LF l) (split_lines s).
Proof.
  unfold split_lines. destruct (line_pieces_no_LF s) as [H1 H2].
  destruct (line_pieces s). now constructor.
Qed.

Lemma In_line_pieces (c : code_unit) (s : jsstring) :
  (In c (fst (line_pieces s)) -> In c s)
  /\ Forall (fun l => In c l -> In c s) (snd (line_pieces s)).
Proof.
  induction s as [|d s [IH1 IH2]]; simpl; [split; [tauto | constructor]|].
  destruct (line_pieces s) as [f fs]. simpl in *.
  assert (Hfs : Forall (fun l => In c l -> d = c \/ In c s) fs).
  { apply Forall_impl with (2 := IH2). tauto. }
  destruct (d =? LF)%N; simpl.
  - split; [tauto|]. constructor; [tauto | exact Hfs].
  - destruct ((d =? CR)%N && head_is LF s); simpl.
    + split; [tauto | exact Hfs].
    + split; [|exact Hfs]. intros [E|H]; [now left | right; now apply IH1].
Qed.

Lemma In_split_lines (c : code_unit) (s l : jsstring) :
  In l (split_lines s) -> In c l -> In c s.
Proof.
  unfold split_lines. destruct (In_line_pieces c s) as [H1 H2].
  destruct (line_pieces s) as [f fs]. simpl in *.
  intros [<-|Hin]; [exact H1|]. rewrite Forall_forall in H2. now apply H2.
Qed.

(** The trimmed values of a line have no comma and no outer space, and
    their units are units of the line. *)
Lemma csv_fields_shape (line : jsstring) :
  Forall (fun f => ~ In COMMA f /\ no_outer_space f
                   /\ forall c, In c f -> In c line) (csv_fields line).
Proof.
  unfold csv_fields. apply Forall_map. apply Forall_forall. intros f Hf.
  pose proof (split_no_sep COMMA line) as Hsep.
  rewrite Forall_forall in Hsep. repeat split.
  - intros H. apply In_trim in H. now apply (Hsep f Hf).
  - apply trim_no_outer_space.
  - apply trim_no_outer_space.
  - intros c Hc. apply In_trim in Hc. now apply (In_split COMMA c line f).
Qed.

(** ** What parseCSV returns and throws *)

Lemma map_rows_inv (headers : list jsstring) (rows : list jsstring) :
  forall index records,
    map_rows headers rows index = Ok records ->
    Forall (fun line => length (csv_fields line) = length headers) rows
    /\ records
       = map (fun line => reduce_headers (csv_fields line) headers 0 []) rows.
Proof.
  induction rows as [|l rows IH]; intros index records H; simpl in H.
  - injection H as <-. split; [constructor | reflexivity].
  - destruct (Nat.eq_dec (length (csv_fields l)) (length headers)) as [E|E].
    + rewrite parse_row_ok in H by exact E. simpl in H.
      destruct (map_rows headers rows (S index)) as [rs|msg] eqn:Hrs;
        [|discriminate].
      simpl in H. injection H as <-.
      destruct (IH (S index) rs Hrs) as [Hall ->].
      split; [now constructor | reflexivity].
    + rewrite parse_row_bad in H by exact E. discriminate.
Qed.

Lemma map_rows_throw (headers : list jsstring) (rows : list jsstring) :
  forall index msg,
    map_rows headers rows index = Throw msg ->
    exists k line,
      nth_error rows k = Some line
      /\ length (csv_fields line) <> length headers
      /\ msg = row_error (index + k) (length (csv_fields line)) (length headers).
Proof.
  induction rows as [|l rows IH]; intros index msg H; simpl in H;
    [discriminate|].
  destruct (Nat.eq_dec (length (csv_fields l)) (length headers)) as [E|E].
  - rewrite parse_row_ok in H by exact E. simpl in H.
    destruct (map_rows headers rows (S index)) as [rs|msg'] eqn:Hrs;
      [discriminate|].
    simpl in H. injection H as <-.
    destruct (IH (S index) msg' Hrs) as (k & line & Hk & Hbad & ->).
    exists (S k), line. repeat split; try assumption.
    now rewrite Nat.add_succ_r.
  - rewrite parse_row_bad in H by exact E. injection H as <-.
    exists 0, l. repeat split; try assumption. now rewrite Nat.add_0_r.
Qed.

Lemma existsb_is_empty_false (headers : list jsstring) :
  existsb is_empty headers = false -> Forall (fun h => h <> []) headers.
Proof.
  induction headers as [|h headers IH]; simpl; intros H; [constructor|].
  apply orb_false_elim in H as [Hh Hrest].
  constructor; [intros ->; discriminate | now apply IH].
Qed.

(** The three outcomes of [parseCSV], by the lines of the text. *)
Lemma parseCSV_cases (csv : jsstring) :
  (length (csv_lines csv) < 2 /\ parseCSV csv = Throw too_few_lines)
  \/ exists header_line rows,
       csv_lines csv = header_line :: rows /\ rows <> []
       /\ ((existsb is_empty (csv_fields header_line) = true
            /\ parseCSV csv = Throw empty_header)
           \/ (Forall (fun h => h <> []) (csv_fields header_line)
               /\ parseCSV csv = map_rows (csv_fields header_line) rows 0)).
Proof.
  unfold parseCSV. fold (csv_lines csv).
  destruct (csv_lines csv) as [|header_line [|line rows]] eqn:E.
  - left. split; [simpl; lia | reflexivity].
  - left. split; [simpl; lia | reflexivity].
  - right. exists header_line, (line :: rows).
    split; [reflexivity|]. split; [discriminate|].
    change (length (header_line :: line :: rows) <? 2) with false. cbv iota.
    change (nth 0 (header_line :: line :: rows) []) with header_line.
    fold (csv_fields header_line).
    destruct (existsb is_empty (csv_fields header_line)) eqn:Hh.
    + left. now split.
    + right. split; [now apply existsb_is_empty_false | reflexivity].
Qed.

(** X1: when [parseCSV] returns, the text has a header line and at least
    one data line, no header field is empty, every data line has as many
    values as there are header fields, and there is one record per data
    line: the result is never the empty list. *)
Theorem parseCSV_returns_only_on_valid (csv : jsstring)
    (records : list (object jsstring)) :
  parseCSV csv = Ok records ->
  exists headers rows,
    valid_csv csv headers rows
    /\ length records = length rows
    /\ records <> [].
Proof.
  intros H.
  destruct (parseCSV_cases csv)
    as [[_ E]|(header_line & rows & Hlines & Hne & [[_ E]|[Hh E]])];
    try congruence.
  rewrite E in H. destruct (map_rows_inv _ _ _ _ H) as [Hall ->].
  exists (csv_fields header_line), rows. split; [|split].
  - exists header_line. repeat split; assumption.
  - apply length_map.
  - destruct rows; [congruence | discriminate].
Qed.

(** X2: [parseCSV] throws nothing but the message about too few lines
    (the text has fewer than two lines), the message about empty headers
    (some header field is empty), or the message of a data row whose
    number of values is not the number of header fields, with that row's
    place and both numbers. *)
Theorem parseCSV_throws_only (csv msg : jsstring) :
  parseCSV csv = Throw msg ->
  (msg = too_few_lines /\ length (csv_lines csv) < 2)
  \/ (msg = empty_header
      /\ In [] (csv_fields (nth 0 (csv_lines csv) [])))
  \/ exists k line,
       nth_error (tl (csv_lines csv)) k = Some line
       /\ length (csv_fields line)
          <> length (csv_fields (nth 0 (csv_lines csv) []))
       /\ msg = row_error k (length (csv_fields line))
                  (length (csv_fields (nth 0 (csv_lines csv) []))).
Proof.
  intros H.
  destruct (parseCSV_cases csv)
    as [[Hlen E]|(header_line & rows & Hlines & Hne & [[Hh E]|[Hh E]])];
    rewrite E in H.
  - left. injection H as <-. now split.
  - right. left. injection H as <-. split; [reflexivity|].
    rewrite Hlines. simpl. apply existsb_exists in Hh as (h & Hin & Hh).
    destruct h; [exact Hin | discriminate].
  - right. right. rewrite Hlines. simpl.
    destruct (map_rows_throw _ _ _ _ H) as (k & line & Hk & Hbad & ->).
    exists k, line. now repeat split.
Qed.

(** *** The pairs of a record *)

Lemma In_overwrite {A} (o : object A) (k : jsstring) (v : A) (p : jsstring * A) :
  In p (overwrite o k v) -> p = (k, v) \/ In p o.
Proof.
  induction o as [|[k' v'] o IH]; simpl; [tauto|].
  destruct (str_eqb k' k) eqn:E; simpl.
  - apply str_eqb_eq in E. subst k'. intuition congruence.
  - intros [H|H]; [tauto|]. destruct (IH H); tauto.
Qed.

Lemma In_insert_index {A} (o : object A) (k : jsstring) (v : A) (p : jsstring * A) :
  In p (insert_index o k v) -> p = (k, v) \/ In p o.
Proof.
  induction o as [|[k' v'] o IH]; simpl; [intuition congruence|].
  destruct (is_array_index k' && (index_value k' <? index_value k)%N); simpl.
  - intros [H|H]; [tauto|]. destruct (IH H); tauto.
  - intuition congruence.
Qed.

Lemma In_define {A} (o : object A) (k : jsstring) (v : A) (p : jsstring * A) :
  In p (define o k v) -> p = (k, v) \/ In p o.
Proof.
  unfold define. destruct (has_own o k); [apply In_overwrite|].
  destruct (is_array_index k); [apply In_insert_index|].
  rewrite in_app_iff. simpl. intuition congruence.
Qed.

Lemma In_reduce_headers (values headers : list jsstring) :
  forall (i : nat) (obj : object jsstring) (p : jsstring * jsstring),
    i + length headers <= length values ->
    In p (reduce_headers values headers i obj) ->
    In p obj
    \/ (In (fst p) headers /\ fst p <> js "__proto__" /\ In (snd p) values).
Proof.
  induction headers as [|h headers IH]; intros i obj p Hlen H; simpl in *;
    [now left|].
  destruct (IH (S i) _ p ltac:(lia) H) as [Hin|(Hk & Hp & Hv)];
    [|right; tauto].
  unfold assign in Hin. destruct (str_eqb h (js "__proto__")) eqn:E;
    [now left|].
  apply In_define in Hin as [->|Hin]; [|now left].
  right. simpl. apply str_eqb_neq in E. repeat split; [now left | exact E|].
  apply nth_In. lia.
Qed.

(** The keys and values of parsed records are clean header fields and
    clean values. *)
Lemma parseCSV_clean_pairs (csv : jsstring)
    (records : list (object jsstring)) :
  parseCSV csv = Ok records ->
  Forall (Forall (fun q =>
            (fst q <> [] /\ fst q <> js "__proto__"
             /\ ~ In COMMA (fst q) /\ ~ In LF (fst q)
             /\ no_outer_space (fst q))
            /\ (~ In COMMA (snd q) /\ ~ In LF (snd q)
                /\ no_outer_space (snd q)))) records.
Proof.
  intros H.
  destruct (parseCSV_cases csv)
    as [[_ E]|(header_line & rows & Hlines & Hne & [[_ E]|[Hh E]])];
    try congruence.
  rewrite E in H. destruct (map_rows_inv _ _ _ _ H) as [Hall ->].
  pose proof (split_lines_no_LF (trim csv)) as Hlf.
  fold (csv_lines csv) in Hlf. rewrite Hlines in Hlf.
  inversion Hlf as [|? ? Hlf_header Hlf_rows]; subst.
  apply Forall_map. apply Forall_forall. intros line Hline.
  apply Forall_forall. intros [k v] Hin. simpl.
  rewrite Forall_forall in Hall, Hlf_rows, Hh.
  apply In_reduce_headers in Hin;
    [|rewrite (Hall line Hline); simpl; lia].
  destruct Hin as [[]|(Hk & Hp & Hv)]. simpl in *.
  pose proof (csv_fields_shape header_line) as Sh.
  pose proof (csv_fields_shape line) as Sl.
  rewrite Forall_forall in Sh, Sl.
  destruct (Sh k Hk) as (Hc & Hs & Hsub).
  destruct (Sl v Hv) as (Hc' & Hs' & Hsub').
  repeat split; try assumption; try apply Hs; try apply Hs'.
  - now apply Hh.
  - intros Hl. apply Hlf_header. now apply Hsub.
  - intros Hl. apply (Hlf_rows line Hline). now apply Hsub'.
Qed.

(** X3: in every record that [parseCSV] returns, every key is a header
    field that is not empty, not [__proto__], without comma, without LF
    and without outer space, and every value is a string without comma,
    without LF and without outer space. *)
Theorem parseCSV_records_are_clean (csv : jsstring)
    (records : list (object jsstring)) :
  parseCSV csv = Ok records ->
  Forall (Forall (fun q =>
            (fst q <> [] /\ fst q <> js "__proto__"
             /\ ~ In COMMA (fst q) /\ ~ In LF (fst q)
             /\ no_outer_space (fst q))
            /\ (~ In COMMA (snd q) /\ ~ In LF (snd q)
                /\ no_outer_space (snd q)))) records.
Proof.
  intros H.
  destruct (parseCSV_cases csv)
    as [[_ E]|(header_line & rows & Hlines & Hne & [[_ E]|[Hh E]])];
    try congruence.
  rewrite E in H. destruct (map_rows_inv _ _ _ _ H) as [Hall ->].
  pose proof (split_lines_no_LF (trim csv)) as Hlf.
  fold (csv_lines csv) in Hlf. rewrite Hlines in Hlf.
  inversion Hlf as [|? ? Hlf_header Hlf_rows]; subst.
  apply Forall_map. apply Forall_forall. intros line Hline.
  apply Forall_forall. intros [k v] Hin. simpl.
  rewrite Forall_forall in Hall, Hlf_rows, Hh.
  apply In_reduce_headers in Hin;
    [|rewrite (Hall line Hline); simpl; lia].
  destruct Hin as [[]|(Hk & Hp & Hv)]. simpl in *.
  pose proof (csv_fields_shape header_line) as Sh.
  pose proof (csv_fields_shape line) as Sl.
  rewrite Forall_forall in Sh, Sl.
  destruct (Sh k Hk) as (Hc & Hs & Hsub).
  destruct (Sl v Hv) as (Hc' & Hs' & Hsub').
  repeat split; try assumption; try apply Hs; try apply Hs'.
  - now apply Hh.
  - intros Hl. apply Hlf_header. now apply Hsub.
  - intros Hl. apply (Hlf_rows line Hline). now apply Hsub'.
Qed.

(** *** The keys do not depend on the values *)

Lemma has_own_keys {A B} (o : object A) (o' : object B) (k : jsstring) :
  keys o = keys o' -> has_own o k = has_own o' k.
Proof.
  intros E. destruct (has_own o k) eqn:H, (has_own o' k) eqn:H';
    try reflexivity.
  - apply has_own_In in H. rewrite E in H. apply has_own_In in H. congruence.
  - apply has_own_In in H'. rewrite <- E in H'. apply has_own_In in H'.
    congruence.
Qed.

Lemma keys_insert_index_congr {A B} (k : jsstring) (v : A) (v' : B) :
  forall (o : object A) (o' : object B),
    keys o = keys o' ->
    keys (insert_index o k v) = keys (insert_index o' k v').
Proof.
  induction o as [|[k1 v1] o IH]; intros [|[k2 v2] o'] E; simpl in *;
    try discriminate; [reflexivity|].
  injection E as -> E.
  destruct (is_array_index k2 && (index_value k2 <? index_value k)%N); simpl.
  - f_equal. now apply IH.
  - now rewrite E.
Qed.

Lemma keys_define_congr {A B} (o : object A) (o' : object B) (k : jsstring)
    (v : A) (v' : B) :
  keys o = keys o' -> keys (define o k v) = keys (define o' k v').
Proof.
  intros E. unfold define. rewrite (has_own_keys o o' k E).
  destruct (has_own o' k).
  - now rewrite !keys_overwrite.
  - destruct (is_array_index k).
    + now apply keys_insert_index_congr.
    + rewrite !keys_app. now rewrite E.
Qed.

Lemma keys_reduce_headers_congr (headers : list jsstring) :
  forall (values values' : list jsstring) (i i' : nat)
         (obj obj' : object jsstring),
    keys obj = keys obj' ->
    keys (reduce_headers values headers i obj)
    = keys (reduce_headers values' headers i' obj').
Proof.
  induction headers as [|h headers IH]; intros values values' i i' obj obj' E;
    simpl; [exact E|].
  apply IH. unfold assign. destruct (str_eqb h (js "__proto__")); [exact E|].
  now apply keys_define_congr.
Qed.

(** X4: all records that [parseCSV] returns for a text have the same keys
    in the same order, whatever the header fields are. *)
Theorem parseCSV_records_share_keys (csv : jsstring)
    (records : list (object jsstring)) (r1 r2 : object jsstring) :
  parseCSV csv = Ok records ->
  In r1 records -> In r2 records -> keys r1 = keys r2.
Proof.
  intros H H1 H2.
  destruct (parseCSV_cases csv)
    as [[_ E]|(header_line & rows & Hlines & Hne & [[_ E]|[Hh E]])];
    try congruence.
  rewrite E in H. destruct (map_rows_inv _ _ _ _ H) as [_ ->].
  apply in_map_iff in H1 as (l1 & <- & _).
  apply in_map_iff in H2 as (l2 & <- & _).
  now apply keys_reduce_headers_congr.
Qed.

(** *** The value under a header *)

Lemma own_overwrite {A} (o : object A) (k h : jsstring) (v : A) :
  has_own o k = true ->
  own (overwrite o k v) h = if str_eqb k h then Some v else own o h.
Proof.
  unfold has_own. induction o as [|[k' v'] o IH]; simpl; [discriminate|].
  destruct (str_eqb k' k) eqn:E; simpl.
  - intros _. apply str_eqb_eq in E. subst k'. now destruct (str_eqb k h).
  - intros H. rewrite (IH H).
    destruct (str_eqb k' h) eqn:E1, (str_eqb k h) eqn:E2; try reflexivity.
    apply str_eqb_eq in E1, E2. subst. now rewrite str_eqb_refl in E.
Qed.

Lemma own_insert_index {A} (o : object A) (k h : jsstring) (v : A) :
  ~ In k (keys o) ->
  own (insert_index o k v) h = if str_eqb k h then Some v else own o h.
Proof.
  induction o as [|[k' v'] o IH]; simpl; intros Hout; [reflexivity|].
  destruct (is_array_index k' && (index_value k' <? index_value k)%N); simpl.
  - rewrite IH by tauto.
    destruct (str_eqb k' h) eqn:E1, (str_eqb k h) eqn:E2; try reflexivity.
    apply str_eqb_eq in E1, E2. subst. tauto.
  - reflexivity.
Qed.

Lemma own_app_last {A} (o : object A) (k h : jsstring) (v : A) :
  ~ In k (keys o) ->
  own (o ++ [(k, v)]) h = if str_eqb k h then Some v else own o h.
Proof.
  induction o as [|[k' v'] o IH]; simpl; intros Hout; [reflexivity|].
  rewrite IH by tauto.
  destruct (str_eqb k' h) eqn:E1, (str_eqb k h) eqn:E2; try reflexivity.
  apply str_eqb_eq in E1, E2. subst. tauto.
Qed.

(** Reading a property after it was created: the new value under its
    key, the old values under the others. *)
Lemma own_define {A} (o : object A) (k h : jsstring) (v : A) :
  own (define o k v) h = if str_eqb k h then Some v else own o h.
Proof.
  unfold define. destruct (has_own o k) eqn:E; [now apply own_overwrite|].
  assert (Hout : ~ In k (keys o)).
  { intros H. apply has_own_In in H. congruence. }
  destruct (is_array_index k);
    [now apply own_insert_index | now apply own_app_last].
Qed.

Lemma own_reduce_headers (h : jsstring) (headers : list jsstring) :
  forall (values done : list jsstring) (obj : object jsstring),
    h <> js "__proto__" ->
    length values = length headers ->
    own (reduce_headers (done ++ values) headers (length done) obj) h
    = match lookup_last h headers values with
      | Some x => Some x
      | None => own obj h
      end.
Proof.
  induction headers as [|header headers IH]; intros values done obj Hp Hlen.
  - destruct values; [reflexivity | discriminate].
  - destruct values as [|v values]; [discriminate|].
    cbn [reduce_headers lookup_last].
    rewrite app_nth2, Nat.sub_diag by lia. cbn [nth].
    replace (done ++ v :: values) with ((done ++ [v]) ++ values)
      by (now rewrite <- app_assoc).
    replace (S (length done)) with (length (done ++ [v]))
      by (rewrite length_app; simpl; lia).
    rewrite IH by (simpl in Hlen; congruence).
    destruct (lookup_last h headers values); [reflexivity|].
    unfold assign. destruct (str_eqb header (js "__proto__")) eqn:E.
    + apply str_eqb_eq in E. subst header.
      replace (str_eqb (js "__proto__") h) with false; [reflexivity|].
      symmetry. apply str_eqb_neq. congruence.
    + rewrite own_define. now destruct (str_eqb header h).
Qed.

(** X5: for a well-formed CSV text, whatever its header fields, the
    record of a data line binds every header field other than
    [__proto__] to the value of the last column with that header, binds
    no other key, and has no property [__proto__]. *)
Theorem parseCSV_last_column_wins (csv : jsstring)
    (headers rows : list jsstring) :
  valid_csv csv headers rows ->
  exists records,
    parseCSV csv = Ok records
    /\ Forall2 (fun line record =>
                  own record (js "__proto__") = None
                  /\ forall h, h <> js "__proto__" ->
                               own record h
                               = lookup_last h headers (csv_fields line))
         rows records.
Proof.
  intros Hvalid. rewrite (parseCSV_valid csv headers rows Hvalid).
  eexists. split; [reflexivity|].
  destruct Hvalid as (_ & _ & _ & _ & _ & Hwidth).
  induction Hwidth as [|line rows Hline _ IH]; simpl; constructor; [|exact IH].
  split.
  { apply own_None. rewrite reduce_headers_keys. simpl. tauto. }
  intros h Hp.
  pose proof (own_reduce_headers h headers (csv_fields line) [] [] Hp Hline)
    as E.
  cbn [app length] in E. rewrite E.
  now destruct (lookup_last h headers (csv_fields line)).
Qed.

(** *** White space around the text, and the two line endings *)

Lemma parseCSV_by_lines (a b : jsstring) :
  csv_lines a = csv_lines b -> parseCSV a = parseCSV b.
Proof. unfold csv_lines, parseCSV. now intros ->. Qed.

(** X6: white space before and after the CSV text (blank lines, spaces,
    a final newline) does not change what [parseCSV] returns or throws. *)
Theorem parseCSV_ignores_outer_space (pre csv post : jsstring) :
  blank pre -> blank post -> parseCSV (pre ++ csv ++ post) = parseCSV csv.
Proof.
  intros Hpre Hpost. apply parseCSV_by_lines. unfold csv_lines.
  now rewrite trim_app_blank.
Qed.

Lemma line_pieces_app_crlf (l rest : jsstring) :
  ~ In LF l -> line_pieces (l ++ CR :: LF :: rest) = (l, split_lines rest).
Proof.
  induction l as [|c l IH]; intros Hlf.
  - simpl. unfold split_lines. now destruct (line_pieces rest).
  - change (line_pieces ((c :: l) ++ CR :: LF :: rest))
      with (let (f, fs) := line_pieces (l ++ CR :: LF :: rest) in
            if (c =? LF)%N then ([], f :: fs)
            else if (c =? CR)%N && head_is LF (l ++ CR :: LF :: rest)
                 then (f, fs)
            else (c :: f, fs)).
    rewrite IH by (intros H; apply Hlf; now right).
    destruct (N.eqb_spec c LF) as [->|_]; [exfalso; apply Hlf; now left|].
    replace (head_is LF (l ++ CR :: LF :: rest)) with false;
      [now rewrite andb_false_r|].
    destruct l as [|d l]; [reflexivity|]. simpl. symmetry.
    apply N.eqb_neq. intros ->. apply Hlf. right. now left.
Qed.

(** Lines joined with CR LF are split into the same lines. *)
Lemma split_lines_join_crlf (ls : list jsstring) :
  ls <> [] ->
  Forall (fun l => ~ In LF l) ls ->
  split_lines (join [CR; LF] ls) = ls.
Proof.
  induction ls as [|x ls IH]; [congruence|]. intros _ H.
  inversion H as [|? ? Hx Hls]; subst.
  destruct ls as [|y ls].
  - simpl. unfold split_lines. now rewrite line_pieces_whole.
  - change (join [CR; LF] (x :: y :: ls))
      with (x ++ CR :: LF :: join [CR; LF] (y :: ls)).
    unfold split_lines at 1. rewrite line_pieces_app_crlf by assumption.
    rewrite IH by (congruence || assumption). reflexivity.
Qed.

Lemma join_nonempty_gen (sep : jsstring) (ls : list jsstring) :
  last ls [] <> [] -> join sep ls <> [].
Proof.
  induction ls as [|x ls IH]; [simpl; congruence|].
  destruct ls as [|y ls]; [simpl; congruence|]. intros H.
  rewrite join_cons2. intros E.
  apply app_eq_nil in E as [_ E]. apply app_eq_nil in E as [_ E].
  now apply IH in E.
Qed.

Lemma last_join_last_gen (sep : jsstring) (ls : list jsstring) (d : code_unit) :
  last ls [] <> [] -> last (join sep ls) d = last (last ls []) d.
Proof.
  induction ls as [|x ls IH]; [simpl; congruence|].
  destruct ls as [|y ls]; [reflexivity|]. intros H.
  rewrite join_cons2.
  change (last (x :: y :: ls) []) with (last (y :: ls) []) in *.
  rewrite <- (IH H).
  pose proof (join_nonempty_gen sep (y :: ls) H) as Hj.
  destruct (join sep (y :: ls)) as [|c r] eqn:E; [congruence|].
  rewrite app_assoc. apply last_app_cons.
Qed.

Lemma joined_lines_no_outer_space (sep : jsstring) (ls : list jsstring) :
  hd [] ls <> [] -> last ls [] <> [] ->
  is_white_space (hd 0%N (hd [] ls)) = false ->
  is_white_space (last (last ls []) 0%N) = false ->
  no_outer_space (join sep ls).
Proof.
  intros Hfirst Hlast Hstart Hend. split.
  - destruct ls as [|x ls]; [reflexivity|]. simpl in Hfirst, Hstart.
    now rewrite hd_join.
  - now rewrite last_join_last_gen.
Qed.

(** X7: a text whose lines are joined with CR LF is parsed like the same
    lines joined with LF, for lines without CR and LF when the text
    neither begins nor ends with white space. *)
Theorem parseCSV_line_endings (ls : list jsstring) :
  Forall (fun l => ~ In CR l /\ ~ In LF l) ls ->
  hd [] ls <> [] -> last ls [] <> [] ->
  is_white_space (hd 0%N (hd [] ls)) = false ->
  is_white_space (last (last ls []) 0%N) = false ->
  parseCSV (join [CR; LF] ls) = parseCSV (join [LF] ls).
Proof.
  intros Hls Hfirst Hlast Hstart Hend. apply parseCSV_by_lines.
  unfold csv_lines.
  rewrite !trim_fixed by (now apply joined_lines_no_outer_space).
  assert (Hne : ls <> []) by (intros ->; now apply Hfirst).
  rewrite split_lines_join_crlf;
    [|exact Hne | apply Forall_impl with (2 := Hls); tauto].
  symmetry. apply split_lines_join; [exact Hne|].
  apply Forall_impl with (2 := Hls). intros l [Hcr Hlf]. split; [exact Hlf|].
  intros E. apply Hcr. rewrite <- E.
  destruct l as [|c l] using rev_ind; [discriminate|].
  rewrite last_last. apply in_or_app. right. now left.
Qed.

(** ** What parseJSON returns and throws *)

Lemma forallb_exists_false {A} (f : A -> bool) (l : list A) :
  forallb f l = false -> exists x, In x l /\ f x = false.
Proof.
  induction l as [|x l IH]; simpl; [discriminate|].
  destruct (f x) eqn:E; simpl.
  - intros H. destruct (IH H) as (y & Hy & Hf). exists y. split; [now right | exact Hf].
  - intros _. exists x. split; [now left | exact E].
Qed.

Section ParseJSONOutcomes.

Variable number : Type.
Variable JSON_parse : jsstring -> result (value number).

Local Abbreviation parseJSON' := (Converter.parseJSON number JSON_parse).

Lemma parseJSON_inv (json : jsstring) (items : list (value number)) :
  parseJSON' json = Ok items ->
  JSON_parse json = Ok (VArr items)
  /\ items <> []
  /\ Forall non_null_object items.
Proof.
  unfold parseJSON. destruct (JSON_parse json) as [data|msg]; simpl;
    [|discriminate].
  destruct data as [| | | |elems|]; try discriminate.
  destruct elems as [|x elems]; [discriminate|]. simpl length. simpl Nat.eqb.
  cbv iota.
  destruct (forallb (is_object_item number) (x :: elems)) eqn:E;
    [|discriminate].
  simpl. intros H. injection H as <-.
  split; [reflexivity|]. split; [discriminate|].
  now apply forallb_is_object_item.
Qed.

(** X8: when [parseJSON] returns, [JSON.parse] returned an array, the
    array is not empty, all its elements are arrays or objects, and the
    result is that array's elements. *)
Theorem parseJSON_returns_only_objects (json : jsstring)
    (items : list (value number)) :
  parseJSON' json = Ok items ->
  JSON_parse json = Ok (VArr items)
  /\ items <> []
  /\ Forall non_null_object items.
Proof.
  unfold parseJSON. destruct (JSON_parse json) as [data|msg]; simpl;
    [|discriminate].
  destruct data as [| | | |elems|]; try discriminate.
  destruct elems as [|x elems]; [discriminate|]. simpl length. simpl Nat.eqb.
  cbv iota.
  destruct (forallb (is_object_item number) (x :: elems)) eqn:E;
    [|discriminate].
  simpl. intros H. injection H as <-.
  split; [reflexivity|]. split; [discriminate|].
  now apply forallb_is_object_item.
Qed.

(** X9: [parseJSON] throws the error of [JSON.parse] when the text is not
    JSON, and otherwise nothing but its three messages, each for its own
    reason: the value is not an array, the array is empty, or some
    element is null or a scalar. *)
Theorem parseJSON_throws_only (json msg : jsstring) :
  parseJSON' json = Throw msg ->
  JSON_parse json = Throw msg
  \/ exists data,
       JSON_parse json = Ok data
       /\ ((isArray data = false /\ msg = not_an_array)
           \/ (data = VArr [] /\ msg = empty_array)
           \/ (exists items, data = VArr items
                             /\ Exists null_or_scalar items
                             /\ msg = not_objects)).
Proof.
  unfold parseJSON. destruct (JSON_parse json) as [data|msg']; simpl.
  - intros H. right. exists data. split; [reflexivity|].
    destruct data as [| | | |elems|];
      try (left; injection H as <-; now split).
    right. destruct elems as [|x elems].
    + left. injection H as <-. now split.
    + right. simpl length in H. simpl Nat.eqb in H. cbv iota in H.
      destruct (forallb (is_object_item number) (x :: elems)) eqn:E;
        [discriminate|].
      simpl in H. injection H as <-.
      exists (x :: elems). split; [reflexivity|]. split; [|reflexivity].
      apply Exists_exists.
      destruct (forallb_exists_false _ _ E) as (y & Hy & Hbad).
      exists y. split; [exact Hy|].
      destruct y; simpl in *; try exact I; discriminate.
  - intros H. left. congruence.
Qed.

End ParseJSONOutcomes.

(** ** The rows the serializer writes *)

Lemma In_first_occurrences (l : list jsstring) (k : jsstring) :
  In k (first_occurrences l) <-> In k l.
Proof.
  induction l as [|x l IH]; simpl; [tauto|].
  rewrite filter_In, IH, negb_true_iff, str_eqb_neq.
  destruct (list_eq_dec N.eq_dec x k) as [->|Hne]; [tauto|].
  split; [tauto|]. intros [H|H]; [tauto|]. right. split; [exact H|congruence].
Qed.

Lemma NoDup_first_occurrences (l : list jsstring) : NoDup (first_occurrences l).
Proof.
  induction l as [|x l IH]; simpl; constructor.
  - rewrite filter_In, negb_true_iff, str_eqb_neq. tauto.
  - now apply NoDup_filter.
Qed.

Lemma double_quotes_injective (s : jsstring) :
  forall t, double_quotes s = double_quotes t -> s = t.
Proof.
  induction s as [|c s IH]; intros [|d t] E.
  - reflexivity.
  - rewrite double_quotes_cons in E. simpl in E.
    destruct (N.eq_dec d DQUOTE); discriminate.
  - rewrite double_quotes_cons in E. simpl in E.
    destruct (N.eq_dec c DQUOTE); discriminate.
  - rewrite !double_quotes_cons in E.
    destruct (N.eq_dec c DQUOTE) as [->|Hc], (N.eq_dec d DQUOTE) as [->|Hd].
    + injection E as E. f_equal. now apply IH.
    + injection E as E1 E2. congruence.
    + injection E as E1 E2. congruence.
    + injection E as -> E. f_equal. now apply IH.
Qed.

(** X10: the escaping of fields loses nothing: two strings that are
    written as the same field are the same string. *)
Theorem escape_injective (s t : jsstring) : escape s = escape t -> s = t.
Proof.
  unfold escape.
  destruct (has_special s) eqn:Hs, (has_special t) eqn:Ht; intros E.
  - injection E as E. apply app_inv_tail in E. now apply double_quotes_injective.
  - exfalso. apply has_special_false in Ht. destruct Ht as (_ & Hq & _).
    apply Hq. rewrite <- E. now left.
  - exfalso. apply has_special_false in Hs. destruct Hs as (_ & Hq & _).
    apply Hq. rewrite E. now left.
  - exact E.
Qed.

Section SerializerOutcomes.

Variable number : Type.
Variable Number_toString : number -> jsstring.
Variable Array_prototype : list (jsstring * jsstring).

Local Abbreviation field' :=
  (Converter.field number Number_toString Array_prototype).
Local Abbreviation fields' :=
  (Converter.fields number Number_toString Array_prototype).
Local Abbreviation rows' :=
  (Converter.rows number Number_toString Array_prototype).
Local Abbreviation serializeCSV' :=
  (Converter.serializeCSV number Number_toString Array_prototype).

(** X11: the header row names every key of every element exactly once:
    it has no duplicate, and a key is in it exactly when some element
    has that key. *)
Theorem unified_headers_exact (jsonData : list (value number)) :
  NoDup (unified_headers number jsonData)
  /\ forall k, In k (unified_headers number jsonData)
               <-> exists obj, In obj jsonData /\ In k (Object_keys obj).
Proof.
  unfold unified_headers. rewrite Set_from_first_occurrences. split.
  - apply NoDup_first_occurrences.
  - intros k. rewrite In_first_occurrences. apply in_flat_map.
Qed.


Lemma rows_table (headers : list jsstring) (jsonData : list (value number)) :
  forall rs,
    rows' headers jsonData = Ok rs ->
    exists table,
      rs = map (join [COMMA]) table
      /\ Forall2 (fun obj fs => fields' obj headers = Ok fs) jsonData table.
Proof.
  induction jsonData as [|obj jsonData IH]; simpl; intros rs H.
  - injection H as <-. exists []. split; [reflexivity | constructor].
  - unfold row in H. destruct (fields' obj headers) as [fs|] eqn:Hfs;
      [|discriminate].
    simpl in H. destruct (rows' headers jsonData) as [rs'|]; [|discriminate].
    simpl in H. injection H as <-.
    destruct (IH rs' eq_refl) as (table & -> & Htable).
    exists (fs :: table). split; [reflexivity | now constructor].
Qed.



Lemma ToString_scalar (v : value number) :
  null_or_scalar v -> exists s, ToString Number_toString v = Ok s.
Proof. destruct v; simpl; intros H; try contradiction; eauto. Qed.

Lemma own_value_In {A} (o : object A) (k : jsstring) (v : A) :
  own o k = Some v -> In v (map snd o).
Proof.
  induction o as [|[k' v'] o IH]; simpl; [discriminate|].
  destruct (str_eqb k' k); [intros H; injection H as ->; now left|].
  intros H. right. now apply IH.
Qed.

Lemma field_flat (obj : value number) (header : jsstring) :
  flat_item obj -> exists f, field' obj header = Ok f.
Proof.
  intros Hflat. unfold field.
  destruct (Get Array_prototype obj header) as [|v|rendering] eqn:Hget;
    [eauto| |eauto].
  assert (Hv : null_or_scalar v).
  { destruct obj as [| | | |elems|props]; simpl in Hflat, Hget;
      try discriminate.
    - destruct (if is_array_index header
                then nth_error elems (N.to_nat (index_value header))
                else None) as [x|] eqn:Hx.
      + injection Hget as <-. rewrite Forall_forall in Hflat. apply Hflat.
        destruct (is_array_index header); [|discriminate].
        now apply nth_error_In in Hx.
      + destruct (str_eqb header (js "length")); [discriminate|].
        destruct (own Array_prototype header); [discriminate|].
        unfold Object_prototype_get in Hget.
        repeat match type of Hget with
               | (if ?b then _ else _) = _ => destruct b
               end; discriminate.
    - destruct (own props header) as [x|] eqn:Hx.
      + injection Hget as <-. apply own_value_In in Hx.
        apply in_map_iff in Hx as (p & <- & Hp).
        rewrite Forall_forall in Hflat. now apply Hflat.
      + unfold Object_prototype_get in Hget.
        repeat match type of Hget with
               | (if ?b then _ else _) = _ => destruct b
               end; discriminate. }
  destruct (ToString_scalar v Hv) as [s Hs].
  destruct v; try contradiction; eauto; rewrite Hs; simpl; eauto.
Qed.

Lemma fields_flat (obj : value number) (headers : list jsstring) :
  flat_item obj -> exists fs, fields' obj headers = Ok fs.
Proof.
  intros Hflat. induction headers as [|h headers [fs IH]]; simpl; [eauto|].
  destruct (field_flat obj h Hflat) as [f ->]. simpl. rewrite IH. simpl. eauto.
Qed.

(** X13: the serializer never throws on flat records: when the own
    values of every element are null, booleans, numbers or strings, it
    returns a text. *)
Theorem serializeCSV_flat_records (jsonData : list (value number)) :
  Forall flat_item jsonData -> exists csv, serializeCSV' jsonData = Ok csv.
Proof.
  intros Hflat. unfold serializeCSV.
  generalize (unified_headers number jsonData). intros headers.
  assert (Hrows : exists rs, rows' headers jsonData = Ok rs).
  { induction Hflat as [|obj jsonData Hobj _ [rs IH]]; simpl; [eauto|].
    unfold row. destruct (fields_flat obj headers Hobj) as [fs ->]. simpl.
    rewrite IH. simpl. eauto. }
  destruct Hrows as [rs ->]. simpl. eauto.
Qed.

End SerializerOutcomes.

(** ** From CSV to JSON and back *)

Lemma map_snd_combine {A B} (l : list A) (l' : list B) :
  length l' = length l -> map snd (combine l l') = l'.
Proof.
  revert l'; induction l as [|x l IH]; intros [|y l'] H; simpl in *;
    try discriminate; [reflexivity|].
  f_equal. apply IH. congruence.
Qed.

Lemma trim_head_kept (c : code_unit) (r : jsstring) :
  is_white_space c = false -> trim (c :: r) <> [].
Proof.
  intros Hc. unfold trim. simpl. rewrite Hc. unfold trimEnd. simpl rev.
  rewrite (trimStart_snoc _ _ Hc). rewrite rev_unit. discriminate.
Qed.

Lemma JSON_stringify_head (records : list (object jsstring)) :
  exists r, JSON_stringify records = 91%N :: r.
Proof. destruct records; eexists; reflexivity. Qed.

Lemma JSON_stringify_not_blank (records : list (object jsstring)) :
  trim (JSON_stringify records) <> [].
Proof.
  destruct (JSON_stringify_head records) as [r ->]. now apply trim_head_kept.
Qed.

Lemma valid_csv_not_blank (csv : jsstring) (headers rows : list jsstring) :
  valid_csv csv headers rows -> trim csv <> [].
Proof.
  intros (header_line & Hlines & Hne & _) E. unfold csv_lines in Hlines.
  rewrite E in Hlines. injection Hlines as _ <-. congruence.
Qed.

Section RoundTrips.

Variable number : Type.
Variable Number_toString : number -> jsstring.
Variable Array_prototype : list (jsstring * jsstring).
Variable JSON_parse : jsstring -> result (value number).

Local Abbreviation serializeCSV' :=
  (Converter.serializeCSV number Number_toString Array_prototype).
Local Abbreviation convertData' :=
  (Converter.convertData number Number_toString Array_prototype JSON_parse).
Local Abbreviation conversion' :=
  (Converter.conversion number Number_toString Array_prototype JSON_parse).

Lemma record_renders_strings (o : object jsstring) :
  record_renders Number_toString (map (fun q => (fst q, VStr (snd q))) o) o.
Proof.
  induction o as [|[k v] o IH]; simpl; constructor; [|exact IH].
  simpl. split; [reflexivity|]. split; [discriminate | reflexivity].
Qed.

(** The records of a well-formed text without double quote, written as
    CSV again: the header fields and the trimmed values of each line. *)
Lemma serializeCSV_parsed (csv : jsstring) (headers rows : list jsstring) :
  valid_csv csv headers rows ->
  property_order headers ->
  ~ In (js "__proto__") headers ->
  ~ In DQUOTE csv ->
  serializeCSV'
    (map as_json (map (fun line => combine headers (csv_fields line)) rows))
  = Ok (csv_text headers (map csv_fields rows)).
Proof.
  intros Hvalid Hord Hproto Hq.
  destruct Hvalid as (header_line & Hlines & Hne & Hfields & Hnonempty & Hwidth).
  pose proof (property_order_NoDup headers Hord) as Hnd.
  set (records := map (fun line => combine headers (csv_fields line)) rows).
  set (strings := fun q : jsstring * jsstring => (fst q, @VStr number (snd q))).
  assert (Ejson : map as_json records = map VObj (map (map strings) records)).
  { rewrite map_map. reflexivity. }
  assert (Hkeys : Forall (fun props => keys props = headers)
                    (map (map strings) records)).
  { unfold records. rewrite map_map. apply Forall_map.
    apply Forall_forall. intros line Hline. unfold keys.
    rewrite map_map. simpl. rewrite Forall_forall in Hwidth.
    apply (keys_combine headers (csv_fields line)). auto. }
  assert (Hrenders : Forall2 (record_renders Number_toString)
                       (map (map strings) records) records).
  { clear. induction records as [|o records IH]; simpl; constructor;
      [apply record_renders_strings | exact IH]. }
  assert (Hplain : Forall (fun o => Forall (fun q => plain_field (snd q)) o)
                     records).
  { unfold records. apply Forall_map. apply Forall_forall. intros line Hline.
    apply Forall_forall. intros q Hq'.
    assert (Hv : In (snd q) (csv_fields line)).
    { destruct q as [k v]. apply in_combine_r in Hq'. exact Hq'. }
    pose proof (csv_fields_shape line) as Sl. rewrite Forall_forall in Sl.
    destruct (Sl _ Hv) as (Hc & Hs & Hsub).
    assert (Hin : In line (csv_lines csv))
      by (rewrite Hlines; now right).
    repeat split; try assumption; try apply Hs.
    - intros H. apply Hq. apply In_trim.
      apply (In_split_lines DQUOTE (trim csv) line Hin). now apply Hsub.
    - intros H. pose proof (split_lines_no_LF (trim csv)) as Hlf.
      rewrite Forall_forall in Hlf. apply (Hlf line Hin). now apply Hsub. }
  rewrite Ejson. unfold serializeCSV.
  rewrite (unified_headers_same number headers (map (map strings) records));
    [|unfold records; destruct rows; [congruence | discriminate]
     |exact Hnd | exact Hkeys].
  rewrite (rows_rendered number Number_toString Array_prototype headers Hnd
             _ records Hkeys Hrenders Hplain).
  assert (E : map (map snd) records = map csv_fields rows).
  { unfold records. rewrite map_map. apply map_ext_in. intros line Hline.
    apply map_snd_combine. rewrite Forall_forall in Hwidth. auto. }
  rewrite E. reflexivity.
Qed.

(** X14: for a well-formed CSV text without double quote whose header
    fields are in property order and none [__proto__], serializing the
    records that [parseCSV] returns gives the text in normal form: the
    header fields and, line by line, the trimmed values, joined with
    commas and LF. *)
Theorem serializeCSV_after_parseCSV (csv : jsstring)
    (headers rows : list jsstring) :
  valid_csv csv headers rows ->
  property_order headers ->
  ~ In (js "__proto__") headers ->
  ~ In DQUOTE csv ->
  exists records,
    parseCSV csv = Ok records
    /\ serializeCSV' (map as_json records)
       = Ok (csv_text headers (map csv_fields rows)).
Proof.
  intros Hvalid Hord Hproto Hq.
  exists (map (fun line => combine headers (csv_fields line)) rows).
  split; [now apply parseCSV_valid_combine | now apply (serializeCSV_parsed csv)].
Qed.

(** *** convertData and the try block *)

Lemma convertData_returns (s : State) (out : jsstring) :
  trim (input s) <> [] ->
  conversion' (mode s) (input s) = Ok out ->
  convertData' s = setOutput out (setError None s).
Proof.
  intros Hin H. unfold convertData, run_convertData, conversion in *.
  destruct (trim (input s)); [congruence|]. simpl.
  destruct (mode s).
  - destruct (parseCSV (input s)); simpl in *; [|discriminate].
    now injection H as <-.
  - destruct (parseJSON number JSON_parse (input s)); simpl in *;
      [|discriminate].
    now rewrite H.
Qed.

Lemma convertData_catches (s : State) (msg : jsstring) :
  trim (input s) <> [] ->
  conversion' (mode s) (input s) = Throw msg ->
  convertData' s = on_catch msg (setError None s).
Proof.
  intros Hin H. unfold convertData, run_convertData, conversion in *.
  destruct (trim (input s)); [congruence|]. simpl.
  destruct (mode s).
  - destruct (parseCSV (input s)); simpl in *; [discriminate|].
    now injection H as <-.
  - destruct (parseJSON number JSON_parse (input s)); simpl in *.
    + now rewrite H.
    + now injection H as <-.
Qed.

Lemma convertData_blank (s : State) :
  trim (input s) = [] ->
  convertData' s
  = setError (Some {| message := enter_data; details := None |})
      (setError None s).
Proof.
  intros Hin. unfold convertData, run_convertData. now rewrite Hin.
Qed.

(** X15: converting a well-formed CSV text to JSON, putting the JSON text
    back as input and converting it to CSV gives the CSV text in normal
    form, with no error at either step.  The text has no double quote,
    its header fields are in property order and none is [__proto__], and
    [JSON.parse] reads the JSON text back as the records it was written
    from. *)
Theorem csv_to_json_to_csv (s : State) (csv : jsstring)
    (headers rows : list jsstring) :
  valid_csv csv headers rows ->
  property_order headers ->
  ~ In (js "__proto__") headers ->
  ~ In DQUOTE csv ->
  (forall records,
     parseCSV csv = Ok records ->
     JSON_parse (JSON_stringify records) = Ok (VArr (map as_json records))) ->
  let s1 := convertData' (setMode csv2json (setInput csv s)) in
  let s2 := convertData' (setMode json2csv (setInput (output s1) s1)) in
  error s1 = None
  /\ error s2 = None
  /\ output s2 = csv_text headers (map csv_fields rows).
Proof.
  intros Hvalid Hord Hproto Hq Hjson.
  pose proof (parseCSV_valid_combine csv headers rows Hvalid Hord Hproto)
    as Hparse.
  set (records := map (fun line => combine headers (csv_fields line)) rows)
    in *.
  assert (E1 : convertData' (setMode csv2json (setInput csv s))
               = setOutput (JSON_stringify records)
                   (setError None (setMode csv2json (setInput csv s)))).
  { apply convertData_returns.
    - simpl. now apply valid_csv_not_blank with headers rows.
    - simpl. now rewrite Hparse. }
  assert (Hrecords : records <> []).
  { destruct Hvalid as (_ & _ & Hne & _). unfold records.
    destruct rows; [congruence | discriminate]. }
  set (s1 := setOutput (JSON_stringify records)
               (setError None (setMode csv2json (setInput csv s)))) in *.
  assert (E2 : convertData' (setMode json2csv (setInput (output s1) s1))
               = setOutput (csv_text headers (map csv_fields rows))
                   (setError None
                      (setMode json2csv (setInput (output s1) s1)))).
  { apply convertData_returns.
    - simpl. apply JSON_stringify_not_blank.
    - simpl. unfold parseJSON. rewrite (Hjson records Hparse). simpl.
      destruct (map as_json records) as [|x items] eqn:Ej.
      { destruct records; [congruence | discriminate]. }
      simpl length. simpl Nat.eqb. cbv iota.
      replace (forallb (is_object_item number) (x :: items)) with true.
      + simpl. rewrite <- Ej. now apply (serializeCSV_parsed csv).
      + symmetry. rewrite <- Ej. apply forallb_forall. intros v Hv.
        apply in_map_iff in Hv as (o & <- & _). reflexivity. }
  cbv zeta. rewrite E1, E2. repeat split.
Qed.

End RoundTrips.

(** ** Parsed records survive serializing and parsing again *)

Lemma parseCSV_inv_records (csv : jsstring) (records : list (object jsstring)) :
  parseCSV csv = Ok records ->
  exists header_line rows,
    csv_lines csv = header_line :: rows
    /\ rows <> []
    /\ records
       = map (fun line =>
                reduce_headers (csv_fields line) (csv_fields header_line) 0 [])
           rows.
Proof.
  intros H.
  destruct (parseCSV_cases csv)
    as [[_ E]|(header_line & rows & Hlines & Hne & [[_ E]|[Hh E]])];
    try congruence.
  rewrite E in H. destruct (map_rows_inv _ _ _ _ H) as [_ ->].
  now exists header_line, rows.
Qed.

Section ParsedRecords.

Variable number : Type.
Variable Number_toString : number -> jsstring.
Variable Array_prototype : list (jsstring * jsstring).

Local Abbreviation serializeCSV' :=
  (Converter.serializeCSV number Number_toString Array_prototype).

(** Records of plain strings under the same plain keys are written as
    the text of their table, and that text is parsed into them. *)
Lemma string_records_round_trip (ks : list jsstring)
    (records : list (object jsstring)) :
  records <> [] ->
  ks <> [] ->
  property_order ks ->
  Forall plain_key ks ->
  Forall (fun o => keys o = ks) records ->
  Forall (fun o => Forall (fun q => plain_field (snd q)) o) records ->
  2 <= length ks \/ Forall (fun q => snd q <> []) (last records []) ->
  serializeCSV' (map as_json records)
  = Ok (csv_text ks (map (map snd) records))
  /\ parseCSV (csv_text ks (map (map snd) records)) = Ok records.
Proof.
  intros Hne Hks Hord Hplain Hkeys Hfields Hlast.
  pose proof (property_order_NoDup ks Hord) as Hnd.
  set (strings := fun q : jsstring * jsstring => (fst q, @VStr number (snd q))).
  set (table := map (map snd) records).
  split.
  - assert (Ejson : map as_json records = map VObj (map (map strings) records)).
    { rewrite map_map. reflexivity. }
    assert (Hkeys' : Forall (fun props => keys props = ks)
                       (map (map strings) records)).
    { apply Forall_map. apply Forall_impl with (2 := Hkeys).
      intros o Ho. unfold keys in *. now rewrite map_map. }
    assert (Hrenders : Forall2 (record_renders Number_toString)
                         (map (map strings) records) records).
    { clear. induction records as [|o records IH]; simpl; constructor;
        [apply record_renders_strings | exact IH]. }
    rewrite Ejson. unfold serializeCSV.
    rewrite (unified_headers_same number ks (map (map strings) records));
      [|destruct records; [congruence | discriminate] | exact Hnd
       |exact Hkeys'].
    now rewrite (rows_rendered number Number_toString Array_prototype ks Hnd
                   _ records Hkeys' Hrenders Hfields).
  - assert (Htable : Forall (fun fs => length fs = length ks
                                       /\ Forall plain_field fs) table).
    { unfold table. apply Forall_map. rewrite Forall_forall in *.
      intros o Hin. split.
      - rewrite <- (Hkeys o Hin). unfold keys. now rewrite !length_map.
      - apply Forall_map. auto. }
    destruct (csv_text_valid ks table) as [Hvalid Hsplit]; try assumption.
    + unfold table. destruct records; [congruence | discriminate].
    + destruct Hlast as [H|H]; [now left|right].
      unfold table. change (@nil jsstring) with (map (@snd jsstring jsstring) []).
      rewrite last_map. now apply Forall_map.
    + rewrite (parseCSV_valid_combine _ _ _ Hvalid Hord).
      * rewrite map_map. unfold table. rewrite map_map.
        rewrite <- (map_id records) at 2. apply f_equal.
        apply map_ext_in. intros o Hin.
        rewrite Forall_forall in Hsplit.
        rewrite (Hsplit (map snd o)) by (apply in_map_iff; now exists o).
        rewrite Forall_forall in Hkeys. rewrite <- (Hkeys o Hin).
        apply combine_fst_snd.
      * intros Hin. rewrite Forall_forall in Hplain.
        destruct (Hplain _ Hin) as (_ & _ & _ & _ & Hproto). congruence.
Qed.

(** X21: the records that [parseCSV] returns for a text without double
    quote survive the way back: the serializer writes them as a text
    that [parseCSV] parses into the same records, provided the last
    record has two keys or more, or one key with a value that is not
    empty. *)
Theorem parsed_records_round_trip (csv : jsstring)
    (records : list (object jsstring)) :
  parseCSV csv = Ok records ->
  ~ In DQUOTE csv ->
  2 <= length (last records [])
  \/ (exists k v, last records [] = [(k, v)] /\ v <> []) ->
  exists text,
    serializeCSV' (map as_json records) = Ok text
    /\ parseCSV text = Ok records.
Proof.
  intros Hparse Hq Hlast.
  pose proof (parseCSV_clean_pairs csv records Hparse) as Hclean.
  destruct (parseCSV_inv_records csv records Hparse)
    as (header_line & rows & Hlines & Hne & Hrecords).
  set (headers := csv_fields header_line) in *.
  set (ks := keys (reduce_headers [] headers 0 [])).
  assert (Hkeys : Forall (fun o => keys o = ks) records).
  { rewrite Hrecords. apply Forall_map. apply Forall_forall. intros line _.
    now apply keys_reduce_headers_congr. }
  assert (Hrne : records <> []).
  { rewrite Hrecords. destruct rows; [congruence | discriminate]. }
  assert (Hin_last : In (last records []) records).
  { destruct (exists_last Hrne) as (front & o & ->). rewrite last_last.
    apply in_or_app. right. now left. }
  assert (Hlen : length (last records []) = length ks).
  { rewrite Forall_forall in Hkeys. rewrite <- (Hkeys _ Hin_last).
    unfold keys. now rewrite length_map. }
  exists (csv_text ks (map (map snd) records)).
  apply string_records_round_trip; try assumption.
  - intros E. rewrite E in Hlen. simpl in Hlen.
    destruct Hlast as [H|(k & v & H & _)]; [lia|].
    rewrite H in Hlen. discriminate.
  - unfold ks. apply reduce_headers_property_order. constructor.
  - apply Forall_forall. intros k Hk.
    rewrite Forall_forall in Hkeys.
    rewrite <- (Hkeys _ Hin_last) in Hk. unfold keys in Hk.
    apply in_map_iff in Hk as ([k' v] & <- & Hpair).
    rewrite Forall_forall in Hclean. specialize (Hclean _ Hin_last).
    rewrite Forall_forall in Hclean.
    destruct (Hclean _ Hpair) as ((H1 & H2 & H3 & H4 & H5) & _).
    unfold plain_key. simpl in *. tauto.
  - apply Forall_forall. intros o Ho. apply Forall_forall. intros q Hq'.
    rewrite Forall_forall in Hclean. specialize (Hclean _ Ho).
    rewrite Forall_forall in Hclean.
    destruct (Hclean _ Hq') as (_ & (H1 & H2 & H3)).
    unfold plain_field. repeat split; try assumption; try apply H3.
    rewrite Hrecords in Ho. apply in_map_iff in Ho as (line & <- & Hline).
    destruct q as [k v].
    intros Hd.
    destruct (parseCSV_cases csv)
      as [[_ E]|(hl & rs & Hl' & _ & [[_ E]|[_ E]])]; try congruence.
    rewrite Hlines in Hl'. injection Hl' as <- <-.
    rewrite E in Hparse. destruct (map_rows_inv _ _ _ _ Hparse) as [Hall _].
    rewrite Forall_forall in Hall.
    apply In_reduce_headers in Hq';
      [|rewrite (Hall line Hline); unfold headers; simpl; lia].
    destruct Hq' as [[]|(_ & _ & Hv)]. simpl in Hv.
    pose proof (csv_fields_shape line) as Sl. rewrite Forall_forall in Sl.
    destruct (Sl _ Hv) as (_ & _ & Hsub).
    apply Hq. apply In_trim.
    apply (In_split_lines DQUOTE (trim csv) line).
    + fold (csv_lines csv). rewrite Hlines. now right.
    + apply Hsub. exact Hd.
  - destruct Hlast as [H|(k & v & H & Hv)]; [left; lia|right].
    rewrite H. repeat constructor. exact Hv.
Qed.

End ParsedRecords.

(** ** The state after convertData and after any events *)

Section ConvertDataOutcomes.

Variable number : Type.
Variable Number_toString : number -> jsstring.
Variable Array_prototype : list (jsstring * jsstring).
Variable JSON_parse : jsstring -> result (value number).

Local Abbreviation parseJSON' := (Converter.parseJSON number JSON_parse).
Local Abbreviation serializeCSV' :=
  (Converter.serializeCSV number Number_toString Array_prototype).
Local Abbreviation convertData' :=
  (Converter.convertData number Number_toString Array_prototype JSON_parse).
Local Abbreviation conversion' :=
  (Converter.conversion number Number_toString Array_prototype JSON_parse).
Local Abbreviation handle' :=
  (Converter.handle number Number_toString Array_prototype JSON_parse).
Local Abbreviation run_events' :=
  (Converter.run_events number Number_toString Array_prototype JSON_parse).

(** The three ways [convertData] ends. *)
Lemma convertData_cases (s : State) :
  (trim (input s) = []
   /\ convertData' s
      = setError (Some {| message := enter_data; details := None |})
          (setError None s))
  \/ (exists out,
        trim (input s) <> []
        /\ conversion' (mode s) (input s) = Ok out
        /\ convertData' s = setOutput out (setError None s))
  \/ (exists msg,
        trim (input s) <> []
        /\ conversion' (mode s) (input s) = Throw msg
        /\ convertData' s = on_catch msg (setError None s)).
Proof.
  destruct (trim (input s)) as [|c r] eqn:Hin.
  - left. split; [reflexivity|].
    apply (convertData_blank number Number_toString Array_prototype JSON_parse).
    exact Hin.
  - right. destruct (conversion' (mode s) (input s)) as [out|msg] eqn:Hc.
    + left. exists out. split; [discriminate|]. split; [reflexivity|].
      apply (convertData_returns number Number_toString Array_prototype
               JSON_parse); [congruence | exact Hc].
    + right. exists msg. split; [discriminate|]. split; [reflexivity|].
      apply (convertData_catches number Number_toString Array_prototype
               JSON_parse); [congruence | exact Hc].
Qed.

(** X16: a second click on Convert changes nothing: [convertData] applied
    to the state it produced returns that state. *)
Theorem convertData_idempotent (s : State) :
  convertData' (convertData' s) = convertData' s.
Proof.
  destruct (convertData_cases s)
    as [[Hin E]|[(out & Hin & Hc & E)|(msg & Hin & Hc & E)]]; rewrite E.
  - rewrite (convertData_blank number Number_toString Array_prototype
               JSON_parse) by exact Hin.
    now destruct s.
  - rewrite (convertData_returns number Number_toString Array_prototype
               JSON_parse _ out) by assumption.
    now destruct s.
  - rewrite (convertData_catches number Number_toString Array_prototype
               JSON_parse _ msg) by assumption.
    now destruct s.
Qed.

Lemma join_lines_nonempty (x y : jsstring) (l : list jsstring) :
  join [LF] (x :: y :: l) <> [].
Proof.
  rewrite join_cons2. intros E. apply app_eq_nil in E as [_ E]. discriminate.
Qed.

(** What the try block returns is never the empty text. *)
Lemma conversion_output_nonempty (m : Mode) (text out : jsstring) :
  conversion' m text = Ok out -> out <> [].
Proof.
  unfold conversion. destruct m.
  - destruct (parseCSV text) as [records|]; simpl; [|discriminate].
    intros H. injection H as <-.
    destruct (JSON_stringify_head records) as [r ->]. discriminate.
  - destruct (parseJSON' text) as [items|] eqn:Hp; simpl; [|discriminate].
    destruct (parseJSON_inv number JSON_parse text items Hp) as (_ & Hne & _).
    unfold serializeCSV.
    destruct (rows number Number_toString Array_prototype
                (unified_headers number items) items) as [rs|] eqn:Hrs;
      simpl; [|discriminate].
    intros H. injection H as <-.
    destruct (rows_table number Number_toString Array_prototype _ _ _ Hrs)
      as (table & -> & Htable).
    apply Forall2_length in Htable.
    destruct items; [congruence|]. destruct table; [discriminate|].
    apply join_lines_nonempty.
Qed.

(** X17: on an input that is not blank, [convertData] ends in exactly one
    of two ways.  Either the try block returns a text: then there is no
    error and the output is that text, which is not empty.  Or the try
    block throws a message: then the error is Conversion failed with
    that very message as details, and the output is empty. *)
Theorem convertData_error_xor_output (s : State) :
  trim (input s) <> [] ->
  (exists out,
     conversion' (mode s) (input s) = Ok out
     /\ error (convertData' s) = None
     /\ output (convertData' s) = out
     /\ out <> [])
  \/ (exists msg,
        conversion' (mode s) (input s) = Throw msg
        /\ error (convertData' s)
           = Some {| message := conversion_failed; details := Some msg |}
        /\ output (convertData' s) = []).
Proof.
  intros Hnb.
  destruct (convertData_cases s)
    as [[Hin _]|[(out & _ & Hc & E)|(msg & _ & Hc & E)]]; [congruence| |];
    rewrite E.
  - left. exists out. split; [exact Hc|]. split; [reflexivity|].
    split; [reflexivity|].
    now apply conversion_output_nonempty with (mode s) (input s).
  - right. exists msg. split; [exact Hc|]. split; reflexivity.
Qed.

(** *** Invariants of the state *)

Lemma run_events_snoc (es : list event) (e : event) :
  run_events' (es ++ [e]) = handle' (run_events' es) e.
Proof. unfold run_events. now rewrite fold_left_app. Qed.

(** X18: after any sequence of edits, toggles, conversions and uploads,
    an error that is set is one of three: Conversion failed, with details
    and with the output empty, or one of the two messages without
    details (no data entered, file not read). *)
Theorem error_shape_invariant (es : list event) :
  match error (run_events' es) with
  | None => True
  | Some e =>
      (message e = conversion_failed /\ details e <> None
       /\ output (run_events' es) = [])
      \/ (details e = None
          /\ (message e = enter_data \/ message e = failed_to_read))
  end.
Proof.
  destruct es as [|e es _] using rev_ind; [exact I|].
  rewrite run_events_snoc. generalize (run_events' es). intros s.
  destruct e as [v| | |name content|]; simpl; try exact I.
  - destruct (convertData_cases s)
      as [[_ E]|[(out & _ & _ & E)|(msg & _ & _ & E)]]; rewrite E; simpl.
    + right. split; [reflexivity | now left].
    + exact I.
    + left. repeat split. discriminate.
  - destruct (endsWith name (js ".csv")); [exact I|].
    destruct (endsWith name (js ".json")); exact I.
  - right. split; [reflexivity | now right].
Qed.

(** The output is empty or the result of the try block in the present
    mode, and events other than uploads keep it so. *)
Lemma handle_output_of_mode (s : State) (e : event) :
  no_upload e ->
  output s = [] \/ (exists text, conversion' (mode s) text = Ok (output s)) ->
  output (handle' s e) = []
  \/ exists text,
       conversion' (mode (handle' s e)) text = Ok (output (handle' s e)).
Proof.
  intros He Hs. destruct e as [v| | |name content|]; simpl in *;
    try contradiction.
  - exact Hs.
  - now left.
  - destruct (convertData_cases s)
      as [[_ E]|[(out & _ & Hc & E)|(msg & _ & _ & E)]]; rewrite E.
    + exact Hs.
    + right. exists (input s). exact Hc.
    + now left.
  - exact Hs.
Qed.

Lemma run_events_output_of_mode (es : list event) :
  Forall no_upload es ->
  output (run_events' es) = []
  \/ exists text,
       conversion' (mode (run_events' es)) text = Ok (output (run_events' es)).
Proof.
  induction es as [|e es IH] using rev_ind; intros H; [now left|].
  apply Forall_app in H as [Hes He]. inversion He; subst.
  rewrite run_events_snoc. apply handle_output_of_mode; auto.
Qed.

(** X19: after any sequence of edits, toggles and conversions, without
    an upload, an output that is not empty is downloaded under the name
    that fits it: converted.json with the JSON text of parsed CSV records
    in mode csv2json, converted.csv with the CSV text of a parsed JSON
    array in mode json2csv. *)
Theorem downloadOutput_name_fits (es : list event) :
  Forall no_upload es ->
  let s := run_events' es in
  output s <> [] ->
  (mode s = csv2json
   /\ file_name (downloadOutput s) = js "converted.json"
   /\ exists text records,
        parseCSV text = Ok records
        /\ content (downloadOutput s) = JSON_stringify records)
  \/ (mode s = json2csv
      /\ file_name (downloadOutput s) = js "converted.csv"
      /\ exists text jsonData,
           parseJSON' text = Ok jsonData
           /\ serializeCSV' jsonData = Ok (content (downloadOutput s))).
Proof.
  intros Hes s Hout.
  destruct (run_events_output_of_mode es Hes) as [E|(text & Hc)];
    [contradiction|].
  fold s in Hc. unfold downloadOutput. simpl content. simpl file_name.
  unfold conversion in Hc. destruct (mode s).
  - left. split; [reflexivity|]. split; [reflexivity|].
    destruct (parseCSV text) as [records|] eqn:Hp; simpl in Hc;
      [|discriminate].
    injection Hc as <-. now exists text, records.
  - right. split; [reflexivity|]. split; [reflexivity|].
    destruct (parseJSON' text) as [jsonData|] eqn:Hp; simpl in Hc;
      [|discriminate].
    now exists text, jsonData.
Qed.

(** X20: an upload followed by a click on Convert converts the content
    of the file in the mode its name selects (csv2json for a name ending
    in .csv, else json2csv for a name ending in .json, else the mode as
    it was): the output is the result of the try block on the content
    with no error, or the output is empty with the error Conversion
    failed and the thrown message. *)
Theorem upload_then_convert (s : State) (name content : jsstring) :
  let m := if endsWith name (js ".csv") then csv2json
           else if endsWith name (js ".json") then json2csv
           else mode s in
  let s' := handle' (handle' s (Loaded name content)) Convert in
  trim content <> [] ->
  mode s' = m
  /\ input s' = content
  /\ match conversion' m content with
     | Ok out => error s' = None /\ output s' = out
     | Throw msg =>
         error s'
         = Some {| message := conversion_failed; details := Some msg |}
         /\ output s' = []
     end.
Proof.
  intros m s' Hnb.
  set (s1 := handle' s (Loaded name content)) in *.
  assert (Hin : input s1 = content).
  { unfold s1. simpl. destruct (endsWith name (js ".csv")); [reflexivity|].
    destruct (endsWith name (js ".json")); reflexivity. }
  assert (Hm : mode s1 = m).
  { unfold s1, m. simpl. destruct (endsWith name (js ".csv")); [reflexivity|].
    destruct (endsWith name (js ".json")); reflexivity. }
  unfold s'. simpl handle.
  destruct (convertData_cases s1)
    as [[Hb _]|[(out & _ & Hc & E)|(msg & _ & Hc & E)]].
  - rewrite Hin in Hb. contradiction.
  - rewrite E. rewrite Hin, Hm in Hc. rewrite Hc. simpl. now repeat split.
  - rewrite E. rewrite Hin, Hm in Hc. rewrite Hc. simpl. now repeat split.
Qed.

End ConvertDataOutcomes.

(** * Runs on concrete texts *)

(** ** Instances of the theorems *)

Lemma parseCSV_too_few_lines_witness :
  parseCSV (js "name,age") = Throw too_few_lines.
Proof. apply parseCSV_too_few_lines. vm_compute. lia. Defined.

Lemma convertData_blank_input_witness :
  let s := setMode json2csv (setInput (js "  " ++ [LF; TAB]) initial) in
  error (fst (run_convertData Ref.number Ref.Number_toString
                Ref.Array_prototype Ref.JSON_parse s))
    = Some {| message := enter_data; details := None |}
  /\ snd (run_convertData Ref.number Ref.Number_toString
            Ref.Array_prototype Ref.JSON_parse s) = [].
Proof.
  apply convertData_blank_input. vm_compute. repeat constructor.
Defined.

Lemma parseJSON_validation_witness :
  Ref.parseJSON (Ref.quoted "{'a': 1}") = Throw not_an_array
  /\ Ref.parseJSON (js "[]") = Throw empty_array
  /\ Ref.parseJSON (Ref.quoted "[{'a': 1}, null]") = Throw not_objects
  /\ Ref.parseJSON (Ref.quoted "[{'a': 1}, 7]") = Throw not_objects
  /\ Ref.parseJSON (Ref.quoted "[{'a': 1}, {'b': 'x'}]")
     = Ok [VObj [(js "a", VNum 1%Z)]; VObj [(js "b", VStr (js "x"))]].
Proof.
  refine (conj _ (conj _ (conj _ (conj _ _)))).
  - eapply (parseJSON_validation Ref.number Ref.JSON_parse);
      [vm_compute; reflexivity | reflexivity].
  - eapply (parseJSON_validation Ref.number Ref.JSON_parse);
      [vm_compute; reflexivity | reflexivity].
  - eapply (parseJSON_validation Ref.number Ref.JSON_parse);
      [vm_compute; reflexivity | reflexivity |].
    apply Exists_cons_tl, Exists_cons_hd. exact I.
  - eapply (parseJSON_validation Ref.number Ref.JSON_parse);
      [vm_compute; reflexivity | reflexivity |].
    apply Exists_cons_tl, Exists_cons_hd. exact I.
  - eapply (parseJSON_validation Ref.number Ref.JSON_parse);
      [vm_compute; reflexivity | reflexivity | discriminate |].
    repeat constructor.
Defined.

Lemma parseJSON_accepts_arrays_witness :
  Ref.parseJSON (js "[[1,2]]") = Ok [VArr [VNum 1%Z; VNum 2%Z]].
Proof.
  apply (parseJSON_accepts_arrays Ref.number Ref.JSON_parse).
  - vm_compute. reflexivity.
  - discriminate.
  - repeat constructor.
Defined.

Lemma parseCSV_records_witness :
  exists records,
    parseCSV (Ref.text ["name,age"; "Ada,36"; "Alan,41"]%string) = Ok records
    /\ length records = 2
    /\ Forall (fun record => keys record = [js "name"; js "age"]) records.
Proof.
  destruct (parseCSV_records
              (Ref.text ["name,age"; "Ada,36"; "Alan,41"]%string)
              [js "name"; js "age"] [js "Ada,36"; js "Alan,41"])
    as (records & Hparse & Hlen & _ & Hkeys).
  - exists (js "name,age").
    refine (conj _ (conj _ (conj _ (conj _ _)))).
    + vm_compute. reflexivity.
    + discriminate.
    + vm_compute. reflexivity.
    + repeat constructor; differ.
    + repeat constructor.
  - exists records. refine (conj Hparse (conj Hlen _)).
    apply Hkeys; [ordered | absent].
Defined.

Lemma parseCSV_row_width_witness :
  parseCSV (Ref.text ["a,b"; "1,2"; "3"; "4,5,6"]%string)
  = Throw (js "Row 3 has 1 values but should have 2 (matching headers)").
Proof.
  destruct (parseCSV_row_width
              (Ref.text ["a,b"; "1,2"; "3"; "4,5,6"]%string) (js "a,b")
              [js "1,2"; js "3"; js "4,5,6"] 2 (js "3")) as [_ Hmsg].
  - vm_compute. reflexivity.
  - lia.
  - reflexivity.
  - vm_compute. lia.
  - apply Hmsg.
    + repeat constructor; differ.
    + intros j line' Hj Hnth. destruct j as [|j]; [|simpl in Hj; lia].
      injection Hnth as <-. vm_compute. reflexivity.
Defined.

Lemma field_escapes_rendering_witness :
  Converter.field Ref.number Ref.Number_toString Ref.Array_prototype
    (VObj [(js "a", VArr [VNum 1%Z; VNum 2%Z])]) (js "a")
  = Ok ([DQUOTE] ++ js "1,2" ++ [DQUOTE])
  /\ Converter.field Ref.number Ref.Number_toString Ref.Array_prototype
       (VObj [(js "a", VStr (js "say " ++ [DQUOTE] ++ js "hi" ++ [DQUOTE]))])
       (js "a")
     = Ok ([DQUOTE] ++ js "say " ++ [DQUOTE; DQUOTE] ++ js "hi"
           ++ [DQUOTE; DQUOTE] ++ [DQUOTE])
  /\ Converter.field Ref.number Ref.Number_toString Ref.Array_prototype
       (VObj [(js "a", VStr (js "two" ++ [LF] ++ js "lines"))]) (js "a")
     = Ok ([DQUOTE] ++ js "two" ++ [LF] ++ js "lines" ++ [DQUOTE])
  /\ Converter.field Ref.number Ref.Number_toString Ref.Array_prototype
       (VObj [(js "a", VBool true)]) (js "a")
     = Ok (js "true").
Proof.
  refine (conj _ (conj _ (conj _ _))).
  - destruct (field_escapes_rendering Ref.number Ref.Number_toString
                Ref.Array_prototype
                (VObj [(js "a", VArr [VNum 1%Z; VNum 2%Z])]) (js "a")
                (VArr [VNum 1%Z; VNum 2%Z]) (js "1,2"))
      as [Hquoted _].
    + reflexivity.
    + discriminate.
    + reflexivity.
    + apply Hquoted. left. vm_compute. tauto.
  - destruct (field_escapes_rendering Ref.number Ref.Number_toString
                Ref.Array_prototype
                (VObj [(js "a",
                        VStr (js "say " ++ [DQUOTE] ++ js "hi" ++ [DQUOTE]))])
                (js "a")
                (VStr (js "say " ++ [DQUOTE] ++ js "hi" ++ [DQUOTE]))
                (js "say " ++ [DQUOTE] ++ js "hi" ++ [DQUOTE]))
      as [Hquoted _].
    + reflexivity.
    + discriminate.
    + reflexivity.
    + apply Hquoted. right. left. vm_compute. tauto.
  - destruct (field_escapes_rendering Ref.number Ref.Number_toString
                Ref.Array_prototype
                (VObj [(js "a", VStr (js "two" ++ [LF] ++ js "lines"))])
                (js "a")
                (VStr (js "two" ++ [LF] ++ js "lines"))
                (js "two" ++ [LF] ++ js "lines"))
      as [Hquoted _].
    + reflexivity.
    + discriminate.
    + reflexivity.
    + apply Hquoted. right. right. vm_compute. tauto.
  - destruct (field_escapes_rendering Ref.number Ref.Number_toString
                Ref.Array_prototype
                (VObj [(js "a", VBool true)]) (js "a")
                (VBool true) (js "true"))
      as [_ Hplain].
    + reflexivity.
    + discriminate.
    + reflexivity.
    + apply Hplain. repeat split; absent.
Defined.

Lemma serializeCSV_parseCSV_witness :
  exists csv,
    Ref.serializeCSV
      [VObj [(js "id", VNum 7%Z); (js "name", VStr (js "Ada"))];
       VObj [(js "id", VBool true); (js "name", VStr [])]]
    = Ok csv
    /\ parseCSV csv
       = Ok [[(js "id", js "7"); (js "name", js "Ada")];
             [(js "id", js "true"); (js "name", [])]]
    /\ Forall2 (same_up_to_rendering Ref.Number_toString)
         [[(js "id", VNum 7%Z); (js "name", VStr (js "Ada"))];
          [(js "id", VBool true); (js "name", VStr [])]]
         [[(js "id", js "7"); (js "name", js "Ada")];
          [(js "id", js "true"); (js "name", [])]].
Proof.
  refine (serializeCSV_parseCSV Ref.number Ref.Number_toString
            Ref.Array_prototype [js "id"; js "name"]
            [[(js "id", VNum 7%Z); (js "name", VStr (js "Ada"))];
             [(js "id", VBool true); (js "name", VStr [])]]
            [[(js "id", js "7"); (js "name", js "Ada")];
             [(js "id", js "true"); (js "name", [])]]
            _ _ _ _ _ _ _ _).
  - discriminate.
  - discriminate.
  - ordered.
  - repeat (apply Forall_cons || apply Forall_nil);
      (refine (conj _ (conj _ (conj _ (conj _ _))));
       [differ | absent | absent | split; reflexivity | differ]).
  - repeat constructor.
  - repeat constructor; discriminate.
  - repeat constructor; try absent.
  - left. simpl. lia.
Defined.

(** ** Counterexamples *)

(** C1 as stated fails.  No value of the two objects below renders with
    a comma, a double quote or a newline, and the text written for them
    is parsed into records that are not the same up to stringification:
    the key that the second object lacks comes back bound to the empty
    string.  Likewise the objects come back with the keys in the order of
    the header row, outer space is lost, null comes back as the empty
    string, an empty last row is lost, a key with a comma is split, and a
    lone empty object is rejected. *)
Lemma serializeCSV_parseCSV_not_identity :
  (Forall (no_special_value Ref.Number_toString)
     [[(js "a", VStr (js "x")); (js "b", VStr (js "y"))];
      [(js "a", VStr (js "z"))]]
   /\ Ref.serializeCSV
        (map VObj [[(js "a", VStr (js "x")); (js "b", VStr (js "y"))];
                   [(js "a", VStr (js "z"))]])
      = Ok (Ref.text ["a,b"; "x,y"; "z,"]%string)
   /\ parseCSV (Ref.text ["a,b"; "x,y"; "z,"]%string)
      = Ok [[(js "a", js "x"); (js "b", js "y")];
            [(js "a", js "z"); (js "b", [])]]
   /\ ~ Forall2 (same_up_to_rendering Ref.Number_toString)
          [[(js "a", VStr (js "x")); (js "b", VStr (js "y"))];
           [(js "a", VStr (js "z"))]]
          [[(js "a", js "x"); (js "b", js "y")];
           [(js "a", js "z"); (js "b", [])]])
  /\ (Ref.serializeCSV [VObj [(js "a", VStr (js "x")); (js "b", VStr (js "y"))];
                        VObj [(js "b", VStr (js "u")); (js "a", VStr (js "v"))]]
      = Ok (Ref.text ["a,b"; "x,y"; "v,u"]%string)
      /\ parseCSV (Ref.text ["a,b"; "x,y"; "v,u"]%string)
         = Ok [[(js "a", js "x"); (js "b", js "y")];
               [(js "a", js "v"); (js "b", js "u")]])
  /\ (Ref.serializeCSV [VObj [(js "a", VStr (js " x"))]]
      = Ok (Ref.text ["a"; " x"]%string)
      /\ parseCSV (Ref.text ["a"; " x"]%string) = Ok [[(js "a", js "x")]])
  /\ (Ref.serializeCSV [VObj [(js "a", VNull); (js "b", VStr (js "y"))]]
      = Ok (Ref.text ["a,b"; ",y"]%string)
      /\ parseCSV (Ref.text ["a,b"; ",y"]%string)
         = Ok [[(js "a", []); (js "b", js "y")]])
  /\ (Ref.serializeCSV [VObj [(js "a", VStr (js "x"))]; VObj [(js "a", VStr [])]]
      = Ok (Ref.text ["a"; "x"; ""]%string)
      /\ parseCSV (Ref.text ["a"; "x"; ""]%string) = Ok [[(js "a", js "x")]])
  /\ (Ref.serializeCSV [VObj [(js "a,b", VStr (js "x"))]]
      = Ok (Ref.text ["a,b"; "x"]%string)
      /\ parseCSV (Ref.text ["a,b"; "x"]%string)
         = Throw (js "Row 2 has 1 values but should have 2 (matching headers)"))
  /\ (Ref.serializeCSV [VObj []] = Ok [LF]
      /\ parseCSV [LF] = Throw too_few_lines).
Proof.
  split; [|vm_compute; repeat split].
  refine (conj _ (conj _ (conj _ _))); try (vm_compute; reflexivity).
  - repeat constructor; eexists; (split; [reflexivity|]); repeat split; absent.
  - intros H. inversion H as [|? ? ? ? _ H2]; subst.
    inversion H2 as [|? ? ? ? H3 _]; subst.
    inversion H3 as [|? ? ? ? _ H4]; subst. inversion H4.
Qed.

(** C3 as stated fails: the text is well formed, with header fields 2
    and 1, and the keys of its record are 1 and 2, in that order; a header
    field that occurs twice gives one key, and a header field [__proto__]
    gives none. *)
Lemma parseCSV_keys_not_in_header_order :
  valid_csv (Ref.text ["2,1"; "x,y"]%string) [js "2"; js "1"] [js "x,y"]
  /\ parseCSV (Ref.text ["2,1"; "x,y"]%string)
     = Ok [[(js "1", js "y"); (js "2", js "x")]]
  /\ keys [(js "1", js "y"); (js "2", js "x")] <> [js "2"; js "1"]
  /\ parseCSV (Ref.text ["a,a"; "x,y"]%string) = Ok [[(js "a", js "y")]]
  /\ parseCSV (Ref.text ["__proto__,a"; "x,y"]%string) = Ok [[(js "a", js "y")]].
Proof.
  refine (conj _ (conj _ (conj _ (conj _ _)))); try (vm_compute; reflexivity).
  - exists (js "2,1").
    refine (conj _ (conj _ (conj _ (conj _ _)))); try (vm_compute; reflexivity).
    + discriminate.
    + repeat constructor; differ.
    + repeat constructor.
  - differ.
Qed.

(** C4 as stated fails: the data row has two values under three header
    fields, and the message is the one about empty headers, which names
    no line and no count. *)
Lemma parseCSV_empty_header_first :
  csv_lines (Ref.text ["a,,b"; "1,2"]%string) = [js "a,,b"; js "1,2"]
  /\ length (csv_fields (js "1,2")) = 2
  /\ length (csv_fields (js "a,,b")) = 3
  /\ parseCSV (Ref.text ["a,,b"; "1,2"]%string)
     = Throw (js "CSV headers cannot be empty")
  /\ parseCSV (Ref.text ["a,,b"; "1,2"]%string) <> Throw (row_error 0 2 3).
Proof.
  refine (conj _ (conj _ (conj _ (conj _ _)))); try (vm_compute; reflexivity).
  differ.
Qed.

(** ** Defects *)

(** C2: after a conversion has filled the output, a click on Convert with
    the input emptied sets the error and leaves the old output in place:
    error and output are both set. *)
Theorem convertData_blank_input_keeps_stale_output :
  let s := Ref.run_events [Edit (Ref.text ["a"; "1"]%string); Convert;
                           Edit []; Convert] in
  error s = Some {| message := js "Please enter some data to convert";
                    details := None |}
  /\ output s = Ref.quoted_text ["["; "  {"; "    'a': '1'"; "  }"; "]"]%string
  /\ output s <> [].
Proof.
  refine (conj _ (conj _ _)); try (vm_compute; reflexivity). differ.
Qed.

(** C8: the second object of each text lacks a key of the first, and its
    row carries in that column the source text of the function inherited
    under that name instead of the empty string. *)
Theorem serializeCSV_inherited_property :
  (Ref.parseJSON (Ref.quoted "[{'toString':1},{'a':2}]")
   = Ok [VObj [(js "toString", VNum 1%Z)]; VObj [(js "a", VNum 2%Z)]]
   /\ Ref.serializeCSV
        [VObj [(js "toString", VNum 1%Z)]; VObj [(js "a", VNum 2%Z)]]
      = Ok (Ref.text ["toString,a"; "1,";
                      "function toString() { [native code] },2"]%string))
  /\ (Ref.parseJSON
        (Ref.quoted
           "[{'driver':'Ada','constructor':'Lotus'},{'driver':'Bob'}]")
      = Ok [VObj [(js "driver", VStr (js "Ada"));
                  (js "constructor", VStr (js "Lotus"))];
            VObj [(js "driver", VStr (js "Bob"))]]
      /\ Ref.serializeCSV
           [VObj [(js "driver", VStr (js "Ada"));
                  (js "constructor", VStr (js "Lotus"))];
            VObj [(js "driver", VStr (js "Bob"))]]
         = Ok (Ref.text ["driver,constructor"; "Ada,Lotus";
                         "Bob,function Object() { [native code] }"]%string)).
Proof. vm_compute. repeat split. Qed.

(** The example of the specification: the union of the keys as header
    row and an empty field for the key the second object lacks. *)
Lemma serializeCSV_union_example :
  Ref.serializeCSV
    [VObj [(js "a", VNum 1%Z); (js "b", VNum 2%Z)];
     VObj [(js "a", VNum 3%Z); (js "c", VNum 4%Z)]]
  = Ok (Ref.text ["a,b,c"; "1,2,"; "3,,4"]%string).
Proof. vm_compute. reflexivity. Qed.

(** ** Instances of the further properties *)

Lemma parseCSV_returns_only_on_valid_witness :
  exists headers rows,
    valid_csv (Ref.text ["a,b"; "1,2"; "3,4"]%string) headers rows
    /\ length [[(js "a", js "1"); (js "b", js "2")];
               [(js "a", js "3"); (js "b", js "4")]] = length rows
    /\ [[(js "a", js "1"); (js "b", js "2")];
        [(js "a", js "3"); (js "b", js "4")]] <> [].
Proof.
  apply (parseCSV_returns_only_on_valid
           (Ref.text ["a,b"; "1,2"; "3,4"]%string)).
  vm_compute. reflexivity.
Defined.

Lemma parseCSV_throws_only_witness :
  let csv := Ref.text ["a,b"; "1,2"; "3"]%string in
  let msg := js "Row 3 has 1 values but should have 2 (matching headers)" in
  (msg = too_few_lines /\ length (csv_lines csv) < 2)
  \/ (msg = empty_header /\ In [] (csv_fields (nth 0 (csv_lines csv) [])))
  \/ exists k line,
       nth_error (tl (csv_lines csv)) k = Some line
       /\ length (csv_fields line)
          <> length (csv_fields (nth 0 (csv_lines csv) []))
       /\ msg = row_error k (length (csv_fields line))
                  (length (csv_fields (nth 0 (csv_lines csv) []))).
Proof.
  apply (parseCSV_throws_only (Ref.text ["a,b"; "1,2"; "3"]%string)).
  vm_compute. reflexivity.
Defined.

Lemma parseCSV_records_are_clean_witness :
  Forall (Forall (fun q =>
            (fst q <> [] /\ fst q <> js "__proto__"
             /\ ~ In COMMA (fst q) /\ ~ In LF (fst q)
             /\ no_outer_space (fst q))
            /\ (~ In COMMA (snd q) /\ ~ In LF (snd q)
                /\ no_outer_space (snd q))))
    [[(js "name", js "Ada L"); (js "age", js "36")]].
Proof.
  apply (parseCSV_records_are_clean
           (Ref.text [" name ,age"; "  Ada L , 36 "; ""]%string)).
  vm_compute. reflexivity.
Defined.

Lemma parseCSV_records_share_keys_witness :
  keys [(js "1", js "y"); (js "b", js "z")]
  = keys [(js "1", js "v"); (js "b", js "w")].
Proof.
  apply (parseCSV_records_share_keys
           (Ref.text ["b,1,b"; "x,y,z"; "u,v,w"]%string)
           [[(js "1", js "y"); (js "b", js "z")];
            [(js "1", js "v"); (js "b", js "w")]]).
  - vm_compute. reflexivity.
  - now left.
  - right. now left.
Defined.

Lemma parseCSV_last_column_wins_witness :
  exists records,
    parseCSV (Ref.text ["a,b,a"; "1,2,3"]%string) = Ok records
    /\ Forall2 (fun line record =>
                  own record (js "__proto__") = None
                  /\ forall h, h <> js "__proto__" ->
                               own record h
                               = lookup_last h [js "a"; js "b"; js "a"]
                                   (csv_fields line))
         [js "1,2,3"] records.
Proof.
  apply (parseCSV_last_column_wins (Ref.text ["a,b,a"; "1,2,3"]%string)
           [js "a"; js "b"; js "a"] [js "1,2,3"]).
  exists (js "a,b,a").
  refine (conj _ (conj _ (conj _ (conj _ _)))).
  - vm_compute. reflexivity.
  - discriminate.
  - vm_compute. reflexivity.
  - repeat constructor; differ.
  - repeat constructor.
Defined.

Lemma parseCSV_ignores_outer_space_witness :
  parseCSV ([LF; SPACE] ++ Ref.text ["a,b"; "1,2"]%string ++ [CR; LF])
  = parseCSV (Ref.text ["a,b"; "1,2"]%string).
Proof.
  apply parseCSV_ignores_outer_space; repeat constructor.
Defined.

Lemma parseCSV_line_endings_witness :
  parseCSV (join [CR; LF] [js "a,b"; js "1,2"; js "3,4"])
  = parseCSV (join [LF] [js "a,b"; js "1,2"; js "3,4"]).
Proof.
  apply parseCSV_line_endings.
  - repeat (apply Forall_cons || apply Forall_nil); split; absent.
  - differ.
  - differ.
  - reflexivity.
  - reflexivity.
Defined.

Lemma parseJSON_returns_only_objects_witness :
  Ref.JSON_parse (Ref.quoted "[{'a': 1}, [2]]")
  = Ok (VArr [VObj [(js "a", VNum 1%Z)]; VArr [VNum 2%Z]])
  /\ [VObj [(js "a", VNum 1%Z)]; VArr [VNum 2%Z]] <> []
  /\ Forall non_null_object [VObj [(js "a", VNum 1%Z)]; VArr [VNum 2%Z]].
Proof.
  apply (parseJSON_returns_only_objects Ref.number Ref.JSON_parse).
  vm_compute. reflexivity.
Defined.

Lemma parseJSON_throws_only_witness :
  let json := Ref.quoted "[{'a': 1}, 'x']" in
  Ref.JSON_parse json = Throw not_objects
  \/ exists data,
       Ref.JSON_parse json = Ok data
       /\ ((isArray data = false /\ not_objects = not_an_array)
           \/ (data = VArr [] /\ not_objects = empty_array)
           \/ (exists items, data = VArr items
                             /\ Exists null_or_scalar items
                             /\ not_objects = not_objects)).
Proof.
  apply (parseJSON_throws_only Ref.number Ref.JSON_parse).
  vm_compute. reflexivity.
Defined.

Lemma escape_injective_witness : js "a,b" = js "a,b".
Proof. apply escape_injective. reflexivity. Defined.


Lemma serializeCSV_flat_records_witness :
  exists csv,
    Ref.serializeCSV
      [VObj [(js "a", VNull); (js "toString", VBool true)];
       VArr [VStr (js "x"); VNum 5%Z]]
    = Ok csv.
Proof.
  apply (serializeCSV_flat_records Ref.number Ref.Number_toString
           Ref.Array_prototype).
  repeat constructor.
Defined.

Lemma spaced_text_is_valid :
  valid_csv (Ref.text [" name , age"; "Ada,  36"; " Bob ,41"]%string)
    [js "name"; js "age"] [js "Ada,  36"; js " Bob ,41"].
Proof.
  exists (js "name , age").
  refine (conj _ (conj _ (conj _ (conj _ _)))).
  - vm_compute. reflexivity.
  - discriminate.
  - vm_compute. reflexivity.
  - repeat constructor; differ.
  - repeat constructor.
Defined.

Lemma serializeCSV_after_parseCSV_witness :
  exists records,
    parseCSV (Ref.text [" name , age"; "Ada,  36"; " Bob ,41"]%string)
    = Ok records
    /\ Ref.serializeCSV (map as_json records)
       = Ok (csv_text [js "name"; js "age"]
               (map csv_fields [js "Ada,  36"; js " Bob ,41"])).
Proof.
  apply (serializeCSV_after_parseCSV Ref.number Ref.Number_toString
           Ref.Array_prototype).
  - exact spaced_text_is_valid.
  - ordered.
  - absent.
  - absent.
Defined.

Lemma csv_to_json_to_csv_witness :
  let s1 := Ref.convertData
              (setMode csv2json
                 (setInput
                    (Ref.text [" name , age"; "Ada,  36"; " Bob ,41"]%string)
                    initial)) in
  let s2 := Ref.convertData (setMode json2csv (setInput (output s1) s1)) in
  error s1 = None
  /\ error s2 = None
  /\ output s2 = csv_text [js "name"; js "age"]
                   (map csv_fields [js "Ada,  36"; js " Bob ,41"]).
Proof.
  apply (csv_to_json_to_csv Ref.number Ref.Number_toString
           Ref.Array_prototype Ref.JSON_parse initial).
  - exact spaced_text_is_valid.
  - ordered.
  - absent.
  - absent.
  - intros records H. vm_compute in H. injection H as <-.
    vm_compute. reflexivity.
Defined.

Lemma convertData_error_xor_output_witness :
  let s := setInput (js "name") initial in
  (exists out,
     Converter.conversion Ref.number Ref.Number_toString Ref.Array_prototype
       Ref.JSON_parse (mode s) (input s) = Ok out
     /\ error (Ref.convertData s) = None
     /\ output (Ref.convertData s) = out
     /\ out <> [])
  \/ (exists msg,
        Converter.conversion Ref.number Ref.Number_toString
          Ref.Array_prototype Ref.JSON_parse (mode s) (input s) = Throw msg
        /\ error (Ref.convertData s)
           = Some {| message := conversion_failed; details := Some msg |}
        /\ output (Ref.convertData s) = []).
Proof.
  apply (convertData_error_xor_output Ref.number Ref.Number_toString
           Ref.Array_prototype Ref.JSON_parse).
  differ.
Defined.

Lemma downloadOutput_name_fits_witness :
  let s := Ref.run_events
             [Edit (Ref.text ["a"; "1"]%string); Convert; Edit []; Convert;
              LoadFailed] in
  (mode s = csv2json
   /\ file_name (downloadOutput s) = js "converted.json"
   /\ exists text records,
        parseCSV text = Ok records
        /\ content (downloadOutput s) = JSON_stringify records)
  \/ (mode s = json2csv
      /\ file_name (downloadOutput s) = js "converted.csv"
      /\ exists text jsonData,
           Ref.parseJSON text = Ok jsonData
           /\ Ref.serializeCSV jsonData = Ok (content (downloadOutput s))).
Proof.
  refine (downloadOutput_name_fits Ref.number Ref.Number_toString
            Ref.Array_prototype Ref.JSON_parse
            [Edit (Ref.text ["a"; "1"]%string); Convert; Edit []; Convert;
             LoadFailed] _ _).
  - repeat constructor.
  - differ.
Defined.

Lemma upload_then_convert_witness :
  let s' := Ref.run_events
              [Edit (js "x"); Loaded (js "people.json")
                                (Ref.quoted "[{'a': 1}]"); Convert] in
  mode s' = json2csv
  /\ input s' = Ref.quoted "[{'a': 1}]"
  /\ error s' = None
  /\ output s' = Ref.text ["a"; "1"]%string.
Proof.
  pose proof (upload_then_convert Ref.number Ref.Number_toString
                Ref.Array_prototype Ref.JSON_parse
                (Ref.run_events [Edit (js "x")]) (js "people.json")
                (Ref.quoted "[{'a': 1}]")) as H.
  cbv zeta in H.
  destruct H as (Hm & Hi & Hc); [differ|].
  refine (conj Hm (conj Hi _)). exact Hc.
Defined.

Lemma parsed_records_round_trip_witness :
  exists text,
    Ref.serializeCSV
      (map as_json [[(js "a", js "2")]; [(js "a", js "4")]]) = Ok text
    /\ parseCSV text = Ok [[(js "a", js "2")]; [(js "a", js "4")]].
Proof.
  apply (parsed_records_round_trip Ref.number Ref.Number_toString
           Ref.Array_prototype (Ref.text ["a,a"; "1,2"; "3,4"]%string)).
  - vm_compute. reflexivity.
  - absent.
  - right. exists (js "a"), (js "4"). split; [reflexivity | differ].
Defined.
